(** * willing: organization signup admission and volunteer profile editor

    A shallow embedding of three source files of the repository:
    - [server/src/api/routes/organization/index.ts], the handler of
      [POST /organization/request];
    - the first database migration ([up]), which declares the tables the
      handler reads and writes;
    - the [VolunteerProfile] React page: its form-state functions and its
      event handlers.

    JavaScript strings are sequences of UTF-16 code units and are modelled as
    [list N]; JavaScript objects used as records of columns are [gmap]s keyed
    by the column name. *)

From Stdlib Require Import ZArith QArith.QArith_base Ascii String.
From stdpp Require Import gmap strings list fin_maps.

Open Scope Z_scope.

(** ** JavaScript strings *)

Module JsString.

Abbreviation jstring := (list N).

(** A string literal of the source whose characters are all ASCII. *)
Definition js (s : string) : jstring :=
  (fun a => N_of_ascii a) <$> list_ascii_of_string s.

Arguments js : simpl never.

(** [s.length] *)
Definition jlength (s : jstring) : Z := Z.of_nat (length s).

(** [s.slice(start, end)], with the clamping of negative and
    out-of-range indices of [String.prototype.slice]. *)
Definition clamp_index (len i : Z) : Z :=
  if i <? 0 then Z.max (len + i) 0 else Z.min i len.

Definition slice (s : jstring) (start stop : Z) : jstring :=
  let len := jlength s in
  let from := clamp_index len start in
  let to := clamp_index len stop in
  if to <=? from then []
  else take (Z.to_nat (to - from)) (drop (Z.to_nat from) s).

(** The code units [String.prototype.trim] strips: ECMAScript WhiteSpace
    (TAB, VT, FF, ZWNBSP and the Unicode space separators) and
    LineTerminator (LF, CR, LS, PS). All of them are single code units. *)
Definition is_ws (c : N) : bool :=
  ((9 <=? c) && (c <=? 13) ||
   (c =? 32) || (c =? 160) || (c =? 5760) ||
   (8192 <=? c) && (c <=? 8202) ||
   (c =? 8232) || (c =? 8233) || (c =? 8239) || (c =? 8287) ||
   (c =? 12288) || (c =? 65279))%N.

Fixpoint trimStart (s : jstring) : jstring :=
  match s with
  | [] => []
  | c :: s' => if is_ws c then trimStart s' else s
  end.

Definition trimEnd (s : jstring) : jstring :=
  reverse (trimStart (reverse s)).

(** [s.trim()] *)
Definition trim (s : jstring) : jstring := trimEnd (trimStart s).

(** [s.split(sep)] for a separator of one code unit, the only form the
    sources use: the segments between the occurrences of [sep]; a string
    with no occurrence, the empty string included, gives one segment. *)
Fixpoint split (sep : N) (s : jstring) : list jstring :=
  match s with
  | [] => [[]]
  | c :: s' =>
      if (c =? sep)%N then [] :: split sep s'
      else match split sep s' with
           | seg :: segs => (c :: seg) :: segs
           | [] => [[c]]
           end
  end.

(** [parts.join(sep)] *)
Fixpoint join (sep : jstring) (parts : list jstring) : jstring :=
  match parts with
  | [] => []
  | [p] => p
  | p :: ps => p ++ sep ++ join sep ps
  end.

(** [Boolean(s)] on a string: the empty string is the only falsy one. *)
Definition truthy (s : jstring) : bool :=
  match s with [] => false | _ :: _ => true end.

Definition comma : N := 44.

(** [s.charAt(i)]: the code unit at [i] as a string, the empty string
    out of range *)
Definition charAt (s : jstring) (i : nat) : jstring :=
  match s !! i with Some c => [c] | None => [] end.

(** [s.split(/\s+/)]: the pieces between the maximal runs of
    whitespace; [\s] is the set [trim] strips. A run at the start or at
    the end leaves an empty piece there. *)
Fixpoint split_spaces (s : jstring) : list jstring :=
  match s with
  | [] => [[]]
  | c :: s' =>
      if is_ws c then
        match s' with
        | c' :: _ => if is_ws c' then split_spaces s' else [] :: split_spaces s'
        | [] => [] :: split_spaces s'
        end
      else
        match split_spaces s' with
        | seg :: segs => (c :: seg) :: segs
        | [] => [[c]]
        end
  end.

End JsString.

Import JsString.

(** ** The volunteer profile page *)

Module Client.

(** [type VolunteerProfileResponse] *)
Record Volunteer := {
  v_id : Z;
  v_first_name : jstring;
  v_last_name : jstring;
  v_email : jstring;
  v_date_of_birth : jstring;
  v_gender : jstring;
  v_description : option jstring
}.

Record VolunteerProfileResponse := {
  volunteer : Volunteer;
  skills : list jstring;
  cv : option jstring;
  privacy : option jstring;
  unavailableFields : list jstring
}.

(** [type ProfileFormState]. The type of [privacy] is the union
    ['public' | 'private'], which is a string at run time: [updateForm]
    stores whatever string it is handed. *)
Record ProfileFormState := {
  f_description : jstring;
  f_skills : jstring;
  f_cv : jstring;
  f_privacy : jstring
}.

Definition DESCRIPTION_MAX_LENGTH : Z := 300.

(** [a ?? b] *)
Definition nullish (a : option jstring) (b : jstring) : jstring :=
  match a with Some x => x | None => b end.

Definition getDefaultFormState (profile : VolunteerProfileResponse)
  : ProfileFormState :=
  {| f_description := nullish (v_description (volunteer profile)) (js "");
     f_skills := join (js ", ") (skills profile);
     f_cv := nullish (cv profile) (js "");
     f_privacy :=
       if decide (privacy profile = Some (js "private"))
       then js "private" else js "public" |}.

Arguments getDefaultFormState : simpl never.

(** [parsedSkills], as a function of [form.skills] *)
Definition parsedSkills (form_skills : jstring) : list jstring :=
  filter (fun skill => truthy skill = true)
         (trim <$> split comma form_skills).

(** *** The skill list as the specification words it

    "Splitting a comma-separated string, trimming whitespace, and
    discarding empty segments, order preserved, duplicates not deduped."
    The three steps are stated by what they produce, not by how. *)

(** [segs] are the pieces of [s] between its commas: none holds a comma,
    and putting the commas back gives [s]. *)
Definition spec_split (s : jstring) (segs : list jstring) : Prop :=
  segs ≠ [] ∧
  Forall (fun seg => comma ∉ seg) segs ∧
  join [comma] segs = s.

(** [t] is [seg] without the whitespace at its two ends. *)
Definition spec_trimmed (seg t : jstring) : Prop :=
  exists l r,
    seg = l ++ t ++ r ∧
    Forall (fun c => is_ws c = true) l ∧
    Forall (fun c => is_ws c = true) r ∧
    (forall c, head t = Some c -> is_ws c = false) ∧
    (forall c, last t = Some c -> is_ws c = false).

(** [out] is the skill list of [s]: the trimmed pieces that are not
    empty, in the order of the pieces, each as often as it occurs. *)
Definition spec_skills (s : jstring) (out : list jstring) : Prop :=
  exists segs trimmed,
    spec_split s segs ∧
    Forall2 spec_trimmed segs trimmed ∧
    out = filter (fun t => t ≠ []) trimmed.

(** [keyof ProfileFormState] *)
Inductive Field := Description | Skills | Cv | Privacy.

(** [{ ...prev, [field]: nextValue }] *)
Definition set_field (prev : ProfileFormState) (field : Field)
    (nextValue : jstring) : ProfileFormState :=
  match field with
  | Description =>
      {| f_description := nextValue; f_skills := f_skills prev;
         f_cv := f_cv prev; f_privacy := f_privacy prev |}
  | Skills =>
      {| f_description := f_description prev; f_skills := nextValue;
         f_cv := f_cv prev; f_privacy := f_privacy prev |}
  | Cv =>
      {| f_description := f_description prev; f_skills := f_skills prev;
         f_cv := nextValue; f_privacy := f_privacy prev |}
  | Privacy =>
      {| f_description := f_description prev; f_skills := f_skills prev;
         f_cv := f_cv prev; f_privacy := nextValue |}
  end.

(** The value [updateForm] stores for [field] *)
Definition nextValue (field : Field) (value : jstring) : jstring :=
  match field with
  | Description => slice value 0 DESCRIPTION_MAX_LENGTH
  | _ => value
  end.

(** *** Component state

    The [useState] cells of [VolunteerProfile]. *)
Record State := {
  profile : option VolunteerProfileResponse;
  form : ProfileFormState;
  loading : bool;
  saving : bool;
  fetchError : option jstring;
  saveError : option jstring;
  saveMessage : option jstring;
  isEditMode : bool
}.

(** The initial values given to [useState] *)
Definition initialState : State :=
  {| profile := None;
     form := {| f_description := js ""; f_skills := js "";
                f_cv := js ""; f_privacy := js "public" |};
     loading := true; saving := false;
     fetchError := None; saveError := None; saveMessage := None;
     isEditMode := false |}.

(** A value caught by [catch (error)]: an [Error] object with its
    [message], or anything else. *)
Inductive thrown := ErrorObject (message : jstring) | NotAnError.

(** [error instanceof Error ? error.message : fallback] *)
Definition messageOf (error : thrown) (fallback : jstring) : jstring :=
  match error with
  | ErrorObject message => message
  | NotAnError => fallback
  end.

(** The JSON body of [PUT /volunteer/profile] *)
Record SaveBody := {
  b_description : jstring;
  b_skills : list jstring;
  b_cv : option jstring;
  b_privacy : jstring
}.

(** A call of [requestServer] that has not settled yet *)
Inductive request := GetProfile | PutProfile (body : SaveBody).

(** How an awaited [requestServer] call settles *)
Inductive settled :=
| Fulfilled (response : VolunteerProfileResponse)
| Rejected (error : thrown).

(** [loadProfile], up to its [await] *)
Definition loadProfile_begin (s : State) : State :=
  {| profile := profile s; form := form s;
     loading := true; saving := saving s;
     fetchError := None; saveError := saveError s;
     saveMessage := saveMessage s; isEditMode := isEditMode s |}.

(** [loadProfile], from its [await] on: the [try] body or the [catch],
    then the [finally] *)
Definition loadProfile_settle (r : settled) (s : State) : State :=
  match r with
  | Fulfilled response =>
      {| profile := Some response; form := getDefaultFormState response;
         loading := false; saving := saving s;
         fetchError := fetchError s; saveError := saveError s;
         saveMessage := saveMessage s; isEditMode := isEditMode s |}
  | Rejected error =>
      {| profile := profile s; form := form s;
         loading := false; saving := saving s;
         fetchError := Some (messageOf error (js "Failed to load profile"));
         saveError := saveError s;
         saveMessage := saveMessage s; isEditMode := isEditMode s |}
  end.

Definition updateForm (field : Field) (value : jstring) (s : State) : State :=
  {| profile := profile s;
     form := set_field (form s) field (nextValue field value);
     loading := loading s; saving := saving s;
     fetchError := fetchError s; saveError := None;
     saveMessage := None; isEditMode := isEditMode s |}.

(** [form.cv || null] *)
Definition or_null (s : jstring) : option jstring :=
  if truthy s then Some s else None.

(** [onSave], up to its [await]: nothing happens outside edit mode or
    without a profile; otherwise the flags are set and the request is
    issued with the current form. *)
Definition onSave_begin (s : State) : State * option request :=
  if negb (isEditMode s) || negb (bool_decide (is_Some (profile s)))
  then (s, None)
  else
    ({| profile := profile s; form := form s;
        loading := loading s; saving := true;
        fetchError := fetchError s; saveError := None;
        saveMessage := None; isEditMode := isEditMode s |},
     Some (PutProfile
             {| b_description := f_description (form s);
                b_skills := parsedSkills (f_skills (form s));
                b_cv := or_null (f_cv (form s));
                b_privacy := f_privacy (form s) |})).

(** [onSave], from its [await] on *)
Definition onSave_settle (r : settled) (s : State) : State :=
  match r with
  | Fulfilled response =>
      {| profile := Some response; form := getDefaultFormState response;
         loading := loading s; saving := false;
         fetchError := fetchError s; saveError := saveError s;
         saveMessage := Some (js "Profile changes saved.");
         isEditMode := false |}
  | Rejected error =>
      {| profile := profile s; form := form s;
         loading := loading s; saving := false;
         fetchError := fetchError s;
         saveError := Some (messageOf error (js "Failed to save profile"));
         saveMessage := saveMessage s; isEditMode := isEditMode s |}
  end.

Definition onCancelEdit (s : State) : State :=
  match profile s with
  | None => s
  | Some p =>
      {| profile := profile s; form := getDefaultFormState p;
         loading := loading s; saving := saving s;
         fetchError := fetchError s; saveError := None;
         saveMessage := None; isEditMode := false |}
  end.

(** [setIsEditMode(true)], the [onClick] of the Edit Profile button *)
Definition enterEdit (s : State) : State :=
  {| profile := profile s; form := form s;
     loading := loading s; saving := saving s;
     fetchError := fetchError s; saveError := saveError s;
     saveMessage := saveMessage s; isEditMode := true |}.

(** *** What is rendered

    The component returns one of four trees. Only the last one has the
    edit controls. *)
Inductive View := VLoading | VFetchError | VNotFound | VPage.

Definition truthy_opt (o : option jstring) : bool :=
  match o with Some m => truthy m | None => false end.

(** [{saveError && <div role="alert" ...>{saveError}</div>}]: the text of
    the error banner when it is rendered; [null] and the empty string
    render nothing. *)
Definition saveErrorBanner (s : State) : option jstring :=
  if truthy_opt (saveError s) then saveError s else None.

Definition view (s : State) : View :=
  if loading s then VLoading
  else if truthy_opt (fetchError s) then VFetchError
  else match profile s with None => VNotFound | Some _ => VPage end.

(** [profile.unavailableFields.includes('cv')] *)
Definition unavailableCv (s : State) : bool :=
  match profile s with
  | Some p => bool_decide (js "cv" ∈ unavailableFields p)
  | None => false
  end.

(** What the user can do. [Type field value] is a change event of the
    control of [field] carrying the control's new content; the privacy
    field has two buttons instead. *)
Inductive UserEvent :=
| ClickRetry
| ClickEdit
| ClickCancel
| ClickSave
| TypeDescription (value : jstring)
| TypeSkills (value : jstring)
| TypeCv (value : jstring)
| ClickPublic
| ClickPrivate.

Definition is_page (s : State) : bool :=
  match view s with VPage => true | _ => false end.

(** The control of the event is rendered and not disabled. *)
Definition enabled (ev : UserEvent) (s : State) : bool :=
  match ev with
  | ClickRetry => match view s with VFetchError => true | _ => false end
  | ClickEdit => is_page s && negb (isEditMode s)
  | ClickCancel | ClickSave
  | TypeDescription _ | TypeSkills _
  | ClickPublic | ClickPrivate =>
      is_page s && isEditMode s && negb (saving s)
  | TypeCv _ =>
      is_page s && isEditMode s && negb (saving s || unavailableCv s)
  end.

(** The component with the requests it is waiting for *)
Record System := { st : State; inflight : list request }.

(** Mounting runs the effect, which calls [loadProfile]. *)
Definition mounted : System :=
  {| st := loadProfile_begin initialState; inflight := [GetProfile] |}.

Definition handle (ev : UserEvent) (sys : System) : System :=
  let s := st sys in
  match ev with
  | ClickRetry =>
      {| st := loadProfile_begin s; inflight := inflight sys ++ [GetProfile] |}
  | ClickEdit => {| st := enterEdit s; inflight := inflight sys |}
  | ClickCancel => {| st := onCancelEdit s; inflight := inflight sys |}
  | ClickSave =>
      let '(s', req) := onSave_begin s in
      {| st := s'; inflight := inflight sys ++ option_list req |}
  | TypeDescription v =>
      {| st := updateForm Description v s; inflight := inflight sys |}
  | TypeSkills v =>
      {| st := updateForm Skills v s; inflight := inflight sys |}
  | TypeCv v => {| st := updateForm Cv v s; inflight := inflight sys |}
  | ClickPublic =>
      {| st := updateForm Privacy (js "public") s; inflight := inflight sys |}
  | ClickPrivate =>
      {| st := updateForm Privacy (js "private") s; inflight := inflight sys |}
  end.

Inductive Event :=
| User (ev : UserEvent)
| Settle (i : nat) (r : settled).

(** One step of the page: an enabled user event runs its handler; a
    request in flight settles and its continuation runs. *)
Definition step (e : Event) (sys : System) : option System :=
  match e with
  | User ev => if enabled ev (st sys) then Some (handle ev sys) else None
  | Settle i r =>
      match inflight sys !! i with
      | None => None
      | Some GetProfile =>
          Some {| st := loadProfile_settle r (st sys);
                  inflight := delete i (inflight sys) |}
      | Some (PutProfile _) =>
          Some {| st := onSave_settle r (st sys);
                  inflight := delete i (inflight sys) |}
      end
  end.

Fixpoint run (es : list Event) (sys : System) : option System :=
  match es with
  | [] => Some sys
  | e :: es' =>
      match step e sys with
      | Some sys' => run es' sys'
      | None => None
      end
  end.

Definition reachable (sys : System) : Prop :=
  exists es, run es mounted = Some sys.

(** The events that edit a form field *)
Definition is_edit (ev : UserEvent) : bool :=
  match ev with
  | TypeDescription _ | TypeSkills _ | TypeCv _ | ClickPublic | ClickPrivate =>
      true
  | ClickRetry | ClickEdit | ClickCancel | ClickSave => false
  end.

(** What holds of the page whenever it is at rest between two events: at
    most one request is in flight and the flags say which; outside edit
    mode the form shows the profile; edit mode has a profile; a profile
    excludes a fetch error; the privacy field holds one of its two
    values. *)
Definition coherent (sys : System) : Prop :=
  let s := st sys in
  (inflight sys = [] ∧ loading s = false ∧ saving s = false
   ∨ inflight sys = [GetProfile] ∧ loading s = true ∧ saving s = false ∧
     isEditMode s = false ∧ profile s = None ∧ fetchError s = None
   ∨ (exists body, inflight sys = [PutProfile body]) ∧
     loading s = false ∧ saving s = true ∧ isEditMode s = true) ∧
  (isEditMode s = false ->
   forall p, profile s = Some p -> form s = getDefaultFormState p) ∧
  (isEditMode s = true -> is_Some (profile s)) ∧
  (is_Some (profile s) -> fetchError s = None) ∧
  (f_privacy (form s) = js "public" ∨ f_privacy (form s) = js "private").

(** A profile to run the page on *)
Definition sample_profile : VolunteerProfileResponse :=
  {| volunteer :=
       {| v_id := 7; v_first_name := js "Ada"; v_last_name := js "Byron";
          v_email := js "ada@example.org";
          v_date_of_birth := js "1990-12-10"; v_gender := js "female";
          v_description := Some (js "Tutor") |};
     skills := [js "Teaching"; js "First Aid"];
     cv := None;
     privacy := Some (js "private");
     unavailableFields := [] |}.

(** The page once [sample_profile] has loaded, and after Edit Profile
    has been clicked there *)
Definition sample_viewing : System :=
  {| st := loadProfile_settle (Fulfilled sample_profile) (st mounted);
     inflight := [] |}.

Definition sample_editing : System := handle ClickEdit sample_viewing.

Definition sample_edits : list UserEvent :=
  [TypeDescription (js "Tutor and first aider"); TypeSkills (js "Teaching,,");
   ClickPublic; TypeCv (js "https://example.org/cv.pdf")].

(** *** Derived display values *)

(** [volunteerName] *)
Definition volunteerName (profile : option VolunteerProfileResponse) : jstring :=
  match profile with
  | None => js ""
  | Some p =>
      trim (v_first_name (volunteer p) ++ js " " ++ v_last_name (volunteer p))
  end.

(** [nameParts], inside [initials] *)
Definition nameParts (volunteerName : jstring) : list jstring :=
  filter (fun part => truthy part = true) (split_spaces (trim volunteerName)).

Section Initials.

(** [String.prototype.toUpperCase] *)
Variable toUpperCase : jstring -> jstring.

(** [initials] *)
Definition initials (volunteerName : jstring) : jstring :=
  join (js "")
       ((fun part => toUpperCase (charAt part 0)) <$> take 2 (nameParts volunteerName)).

(** [{initials || 'V'}], the text of the avatar *)
Definition avatarText (volunteerName : jstring) : jstring :=
  if truthy (initials volunteerName) then initials volunteerName else js "V".

End Initials.

Definition SKILL_BADGE_STYLES : list jstring :=
  [js "badge-primary"; js "badge-secondary"; js "badge-accent"; js "badge-info"].

(** [SKILL_BADGE_STYLES[index % SKILL_BADGE_STYLES.length]]; an index
    outside the array reads [undefined] *)
Definition skillBadgeStyle (index : nat) : option jstring :=
  SKILL_BADGE_STYLES !! (index mod length SKILL_BADGE_STYLES)%nat.

(** The skills block of the page: one badge per parsed skill with its
    style, or the placeholder *)
Inductive SkillsBlock :=
| Badges (items : list (jstring * option jstring))
| NoSkillsYet.

Definition renderSkills (parsed : list jstring) : SkillsBlock :=
  if (0 <? length parsed)%nat
  then Badges (imap (fun index skill => (skill, skillBadgeStyle index)) parsed)
  else NoSkillsYet.

(** A skill as the server is meant to hold it: not empty, no comma, no
    whitespace at either end *)
Definition clean_skill (skill : jstring) : Prop :=
  skill ≠ [] ∧ (comma ∉ skill) ∧
  (forall c, head skill = Some c -> is_ws c = false) ∧
  (forall c, last skill = Some c -> is_ws c = false).

(** What holds of the page besides [coherent]: the two save banners are
    never both set, and neither outside edit mode shows an error nor is
    either set while saving; a description longer than the limit is the
    server's own; a CV the server reports unavailable is as the server
    gave it. *)
Definition tidy (sys : System) : Prop :=
  let s := st sys in
  (saveError s = None ∨ saveMessage s = None) ∧
  (isEditMode s = false -> saveError s = None) ∧
  (saving s = true -> saveError s = None ∧ saveMessage s = None) ∧
  (jlength (f_description (form s)) <= DESCRIPTION_MAX_LENGTH ∨
   exists p, profile s = Some p ∧
             f_description (form s) =
               nullish (v_description (volunteer p)) (js "")) ∧
  (forall p, profile s = Some p -> js "cv" ∈ unavailableFields p ->
             f_cv (form s) = nullish (cv p) (js "")).

#[global] Instance Field_eq_dec : EqDecision Field.
Proof. solve_decision. Defined.

(** A profile with the given names, and an upper-casing of the ASCII
    letters, which is what [toUpperCase] does on ASCII code units *)
Definition named (first last : jstring) : VolunteerProfileResponse :=
  {| volunteer :=
       {| v_id := 1; v_first_name := first; v_last_name := last;
          v_email := js "v@example.org"; v_date_of_birth := js "";
          v_gender := js "other"; v_description := None |};
     skills := []; cv := None; privacy := None; unavailableFields := [] |}.

Definition toUpperCase_letters (s : jstring) : jstring :=
  (fun c => if (97 <=? c)%N && (c <=? 122)%N then (c - 32)%N else c) <$> s.

(** A profile whose CV the server cannot store, and the page editing it *)
Definition sample_profile_no_cv : VolunteerProfileResponse :=
  {| volunteer := volunteer sample_profile;
     skills := skills sample_profile;
     cv := None;
     privacy := None;
     unavailableFields := [js "cv"] |}.

Definition sample_editing_no_cv : System :=
  handle ClickEdit
    {| st := loadProfile_settle (Fulfilled sample_profile_no_cv) (st mounted);
       inflight := [] |}.

End Client.

(** ** The database

    The tables are declared by the migration [up]; the engine that stores
    them is PostgreSQL, of which this model keeps what the declarations of
    [up] ask for: the serial default, NOT NULL, UNIQUE and PRIMARY KEY.
    Whether a value fits its column type (a [varchar(n)] limit, for one) is
    left to the engine and is a parameter, [type_accepts]. *)

Module Database.

(** A column value. A NULL is an absent key of the row. *)
Inductive value :=
| VInt (n : Z)
| VText (s : jstring)
| VNumeric (q : Q).

#[global] Instance Q_eq_dec : EqDecision Q.
Proof. solve_decision. Defined.

#[global] Instance value_eq_dec : EqDecision value.
Proof. solve_decision. Defined.

(** A row, and also the JavaScript object handed to [values] or sent by
    [res.json]: column name to value. *)
Abbreviation row := (gmap string value).

(** The data types [up] uses: ['serial'], ['varchar'], ['varchar(n)'],
    ['numeric'] *)
Inductive col_type :=
| Serial
| Varchar (limit : option N)
| Numeric.

Record column := {
  col_name : string;
  col_type_of : col_type;
  col_primaryKey : bool;
  col_notNull : bool;
  col_unique : bool
}.

(** The column builder of [addColumn(name, type, col => ...)] *)
Definition plain (name : string) (ty : col_type) : column :=
  {| col_name := name; col_type_of := ty; col_primaryKey := false;
     col_notNull := false; col_unique := false |}.

Definition primaryKey (col : column) : column :=
  {| col_name := col_name col; col_type_of := col_type_of col;
     col_primaryKey := true;
     col_notNull := col_notNull col; col_unique := col_unique col |}.

Definition notNull (col : column) : column :=
  {| col_name := col_name col; col_type_of := col_type_of col;
     col_primaryKey := col_primaryKey col;
     col_notNull := true; col_unique := col_unique col |}.

Definition unique (col : column) : column :=
  {| col_name := col_name col; col_type_of := col_type_of col;
     col_primaryKey := col_primaryKey col;
     col_notNull := col_notNull col; col_unique := true |}.

(** Method chaining: [x |> f] is [x.f()]. *)
Notation "x |> f" := (f x) (at level 45, left associativity, only parsing).

Definition addColumn (name : string) (ty : col_type)
    (build : column -> column) (cols : list column) : list column :=
  cols ++ [build (plain name ty)].

(** A table: its declaration, its rows in insertion order, and the next
    value of the sequence behind its serial column. *)
Record table := {
  tbl_schema : list column;
  tbl_rows : list row;
  tbl_seq : Z
}.

Abbreviation database := (gmap string table).

(** A table as it is created: no row, the sequence at its start *)
Definition fresh_table (cols : list column) : table :=
  {| tbl_schema := cols; tbl_rows := []; tbl_seq := 1 |}.

(** [db.schema.createTable(name)...execute()]: fails when the table
    exists. *)
Definition createTable (name : string) (cols : list column)
    (db : database) : option database :=
  match db !! name with
  | Some _ => None
  | None => Some (<[name := fresh_table cols]> db)
  end.

Definition organization_account_columns : list column :=
  []
  |> addColumn "id" Serial (fun col => col |> primaryKey)
  |> addColumn "name" (Varchar None) (fun col => col |> notNull)
  |> addColumn "email" (Varchar (Some 128%N)) (fun col => col |> notNull |> unique)
  |> addColumn "phone_number" (Varchar (Some 32%N)) (fun col => col |> notNull |> unique)
  |> addColumn "url" (Varchar (Some 256%N)) (fun col => col |> notNull |> unique)
  |> addColumn "latitude" Numeric id
  |> addColumn "longitude" Numeric id
  |> addColumn "password" (Varchar (Some 256%N)) (fun col => col |> notNull |> unique)
  |> addColumn "location_name" (Varchar (Some 256%N)) (fun col => col |> notNull).

Definition organization_request_columns : list column :=
  []
  |> addColumn "id" Serial (fun col => col |> primaryKey)
  |> addColumn "email" (Varchar (Some 128%N)) (fun col => col |> notNull |> unique)
  |> addColumn "name" (Varchar (Some 128%N)) (fun col => col |> notNull)
  |> addColumn "phone_number" (Varchar (Some 32%N)) id
  |> addColumn "url" (Varchar (Some 256%N)) (fun col => col |> notNull |> unique)
  |> addColumn "latitude" Numeric id
  |> addColumn "longitude" Numeric id
  |> addColumn "location_name" (Varchar (Some 256%N)) (fun col => col |> notNull).

Definition volunteer_account_columns : list column :=
  []
  |> addColumn "id" Serial (fun col => col |> primaryKey)
  |> addColumn "first_name" (Varchar (Some 128%N)) (fun col => col |> notNull)
  |> addColumn "last_name" (Varchar (Some 128%N)) (fun col => col |> notNull)
  |> addColumn "gender" (Varchar (Some 64%N)) (fun col => col |> notNull)
  |> addColumn "email" (Varchar (Some 128%N)) (fun col => col |> notNull |> unique)
  |> addColumn "phone_number" (Varchar (Some 32%N)) (fun col => col |> notNull |> unique)
  |> addColumn "password" (Varchar (Some 256%N)) (fun col => col |> notNull |> unique).

Definition admin_account_columns : list column :=
  []
  |> addColumn "id" Serial (fun col => col |> primaryKey)
  |> addColumn "email" (Varchar (Some 128%N)) (fun col => col |> notNull |> unique)
  |> addColumn "first_name" (Varchar (Some 64%N)) (fun col => col |> notNull)
  |> addColumn "last_name" (Varchar (Some 64%N)) (fun col => col |> notNull).

(** The migration: four [createTable]s in sequence, each awaited. *)
Definition up (db : database) : option database :=
  db1 ← createTable "organization_account" organization_account_columns db;
  db2 ← createTable "organization_request" organization_request_columns db1;
  db3 ← createTable "volunteer_account" volunteer_account_columns db2;
  createTable "admin_account" admin_account_columns db3.

(** The tables the migration creates, in its order *)
Definition migration_tables : list string :=
  ["organization_account"; "organization_request";
   "volunteer_account"; "admin_account"].

(** [down]: its body is empty *)
Definition down (db : database) : option database := Some db.

(** The database right after the migration has run on an empty one *)
Definition migrated : database := default ∅ (up ∅).

(** [selectFrom(tbl).where(col, '=', v)]: the matching rows in table
    order, or nothing when the table does not exist. *)
Definition select_where (tbl col : string) (v : value) (db : database)
  : option (list row) :=
  t ← db !! tbl;
  Some (filter (fun r => r !! col = Some v) (tbl_rows t)).

(** [select(cols)]: the projection of a row *)
Definition project (cols : list string) (r : row) : row :=
  filter (fun kv => kv.1 ∈ cols) r.

(** [executeTakeFirst()] *)
Definition executeTakeFirst (rows : list row) : option row := head rows.

Section Engine.

(** Whether the engine takes value [v] for a column of type [ty]. *)
Variable type_accepts : col_type -> value -> bool.

(** The serial default: a serial column the row leaves out takes the
    next value of the sequence, which advances. *)
Fixpoint fill_defaults (cols : list column) (r : row) (seq : Z) : row * Z :=
  match cols with
  | [] => (r, seq)
  | c :: cols' =>
      match col_type_of c, r !! col_name c with
      | Serial, None =>
          fill_defaults cols' (<[col_name c := VInt seq]> r) (seq + 1)
      | _, _ => fill_defaults cols' r seq
      end
  end.

Definition holds_unique (c : column) : bool :=
  col_unique c || col_primaryKey c.

Definition holds_notNull (c : column) : bool :=
  col_notNull c || col_primaryKey c.

(** The constraints of one column on a new row, given the rows
    already stored. A NULL violates no uniqueness. *)
Definition column_accepts (rows : list row) (r : row) (c : column) : bool :=
  match r !! col_name c with
  | None => negb (holds_notNull c)
  | Some v =>
      type_accepts (col_type_of c) v &&
      (if holds_unique c
       then bool_decide (Forall (fun r0 : row => r0 !! col_name c ≠ Some v) rows)
       else true)
  end.

Definition row_accepted (t : table) (r : row) : bool :=
  bool_decide (Forall (fun k => k ∈ col_name <$> tbl_schema t)
                      (map_to_list r).*1) &&
  forallb (column_accepts (tbl_rows t) r) (tbl_schema t).

(** [insertInto(tbl).values(r).returningAll()]: the stored rows it
    returns, or [None] when the engine raises an error. The sequence
    keeps the values it handed out even when the insert fails. *)
Definition insert_into (tbl : string) (r : row) (db : database)
  : database * option (list row) :=
  match db !! tbl with
  | None => (db, None)
  | Some t =>
      let '(r', seq') := fill_defaults (tbl_schema t) r (tbl_seq t) in
      if row_accepted t r'
      then (<[tbl := {| tbl_schema := tbl_schema t;
                        tbl_rows := tbl_rows t ++ [r'];
                        tbl_seq := seq' |}]> db,
            Some [r'])
      else (<[tbl := {| tbl_schema := tbl_schema t;
                        tbl_rows := tbl_rows t;
                        tbl_seq := seq' |}]> db,
            None)
  end.

(** [deleteFrom(tbl).where(...)] with an arbitrary condition *)
Definition delete_from (tbl : string) (cond : row -> bool) (db : database)
  : database :=
  match db !! tbl with
  | None => db
  | Some t =>
      <[tbl := {| tbl_schema := tbl_schema t;
                  tbl_rows := filter (fun r => cond r = false) (tbl_rows t);
                  tbl_seq := tbl_seq t |}]> db
  end.

(** The statements that change rows *)
Inductive statement :=
| Insert (tbl : string) (r : row)
| Delete (tbl : string) (cond : row -> bool).

Definition execute (db : database) (stmt : statement) : database :=
  match stmt with
  | Insert tbl r => (insert_into tbl r db).1
  | Delete tbl cond => delete_from tbl cond db
  end.

(** The states the migrated database can get into *)
Definition db_reachable (db : database) : Prop :=
  exists stmts, foldl execute migrated stmts = db.

End Engine.

(** An engine that takes every value for every column type, to run
    examples on *)
Definition accepts_all (ty : col_type) (v : value) : bool := true.

(** No two of [rows] hold the same non-NULL value in column [col]. *)
Fixpoint distinct_on (col : string) (rows : list row) : Prop :=
  match rows with
  | [] => True
  | r :: rows' =>
      (forall v, r !! col = Some v ->
                 Forall (fun r0 : row => r0 !! col ≠ Some v) rows') ∧
      distinct_on col rows'
  end.

(** The rows of a table respect the NOT NULL and the uniqueness its
    columns declare. *)
Definition table_sound (t : table) : Prop :=
  Forall (fun c =>
            (holds_notNull c = true ->
             Forall (fun r : row => is_Some (r !! col_name c)) (tbl_rows t)) ∧
            (holds_unique c = true -> distinct_on (col_name c) (tbl_rows t)))
         (tbl_schema t).

(** The tables are those of the migration, with its declarations, and
    each is sound. *)
Definition db_sound (db : database) : Prop :=
  (forall tbl, tbl_schema <$> db !! tbl = tbl_schema <$> migrated !! tbl) ∧
  (forall tbl t, db !! tbl = Some t -> table_sound t).

(** A pending request with the columns the table requires *)
Definition request_row (email url : string) : row :=
  {[ "name" := VText (js "Org"); "email" := VText (js email);
     "url" := VText (js url); "location_name" := VText (js "Town") ]}.

(** Two pending requests, stored one after the other *)
Definition two_requests : database :=
  foldl (execute accepts_all) migrated
        [Insert "organization_request"
                (request_row "a@x.org" "https://a.x.org");
         Insert "organization_request"
                (request_row "b@x.org" "https://b.x.org")].

(** The table of [two_requests] that holds them, and the id column as
    [up] declares it *)
Definition two_requests_table : table :=
  default (fresh_table []) (two_requests !! "organization_request").

Definition id_column : column := primaryKey (plain "id" Serial).

End Database.

(** ** The signup endpoint *)

Module Server.

Import Database.

(** Modelled from the spec: the type [newOrganizationRequestSchema]
    parses to (the schema is declared in [db/tables.ts], which is not
    among the sources); the fields are those of the request body in the
    spec's interface section, the optional ones as options. *)
Record NewOrganizationRequest := {
  name : jstring;
  email : jstring;
  phone_number : option jstring;
  url : jstring;
  location_name : jstring;
  latitude : option Q;
  longitude : option Q
}.

(** What a handler can throw *)
Inductive exception :=
| Error (message : jstring)
| ZodError
| DatabaseError
| MailError.

(** The response object [res]: the status set so far and the body once
    sent. *)
Record Response := { statusCode : Z; sent : option row }.

(** Everything the handler can touch *)
Record World := {
  db : database;
  res : Response;
  mailed : list row;
  console : list jstring
}.

(** The handler runs in a fresh response: status 200, nothing sent. *)
Definition incoming (d : database) : World :=
  {| db := d; res := {| statusCode := 200; sent := None |};
     mailed := []; console := [] |}.

(** Computations that change the world and return or throw *)
Definition M (A : Type) : Type := World -> World * (A + exception).

Definition ret {A} (a : A) : M A := fun w => (w, inl a).

Definition throw {A} (e : exception) : M A := fun w => (w, inr e).

Definition bind {A B} (m : M A) (k : A -> M B) : M B :=
  fun w =>
    match m w with
    | (w', inl a) => k a w'
    | (w', inr e) => (w', inr e)
    end.

(** [try { m } catch (error) { handler }] *)
Definition try_catch {A} (m : M A) (handler : exception -> M A) : M A :=
  fun w =>
    match m w with
    | (w', inl a) => (w', inl a)
    | (w', inr e) => handler e w'
    end.

Notation "'let*' x := m 'in' k" := (bind m (fun x => k))
  (at level 10, x name, m at level 100, k at level 200, only parsing).
Notation "m ;; k" := (bind m (fun _ => k))
  (at level 100, k at level 200, right associativity, only parsing).

(** [res.status(code)] *)
Definition res_status (code : Z) : M unit :=
  fun w =>
    ({| db := db w;
        res := {| statusCode := code; sent := sent (res w) |};
        mailed := mailed w; console := console w |}, inl tt).

(** [res.json(body)] *)
Definition res_json (body : row) : M unit :=
  fun w =>
    ({| db := db w;
        res := {| statusCode := statusCode (res w); sent := Some body |};
        mailed := mailed w; console := console w |}, inl tt).

(** [console.error(message, error)] *)
Definition console_error (message : jstring) : M unit :=
  fun w =>
    ({| db := db w; res := res w; mailed := mailed w;
        console := console w ++ [message] |}, inl tt).

(** The optional entries of an object literal: an [undefined] value
    is no entry. *)
Definition with_entry (k : string) (v : option value) (r : row) : row :=
  match v with Some x => <[k := x]> r | None => r end.

Section Handler.

(** The request body as it arrives *)
Variable RequestBody : Type.

(** [newOrganizationRequestSchema.parse]: the parsed body, or [None]
    when it throws *)
Variable parse : RequestBody -> option NewOrganizationRequest.

(** [String.prototype.toLowerCase] *)
Variable toLowerCase : jstring -> jstring.

(** [sendAdminOrganizationRequestEmail], from [SMTP/emails.ts]:
    returns, or throws before it returns *)
Variable sendAdminOrganizationRequestEmail : row -> option exception.

(** The engine's judgement of a value against a column type *)
Variable type_accepts : col_type -> value -> bool.

Definition schema_parse (body : RequestBody) : M NewOrganizationRequest :=
  match parse body with
  | Some b => ret b
  | None => throw ZodError
  end.

(** A [selectFrom ... executeTakeFirst()] query, awaited *)
Definition select_first (tbl : string) (cols : list string)
    (col : string) (v : value) : M (option row) :=
  fun w =>
    match select_where tbl col v (db w) with
    | Some rows => (w, inl (executeTakeFirst (project cols <$> rows)))
    | None => (w, inr DatabaseError)
    end.

(** An [insertInto ... returningAll().executeTakeFirst()] query,
    awaited *)
Definition insert_first (tbl : string) (r : row) : M (option row) :=
  fun w =>
    let '(db', returned) := insert_into type_accepts tbl r (db w) in
    let w' := {| db := db'; res := res w;
                 mailed := mailed w; console := console w |} in
    match returned with
    | Some rows => (w', inl (executeTakeFirst rows))
    | None => (w', inr DatabaseError)
    end.

(** The call of the mailer *)
Definition send_mail (organization : row) : M unit :=
  fun w =>
    let w' := {| db := db w; res := res w;
                 mailed := mailed w ++ [organization];
                 console := console w |} in
    match sendAdminOrganizationRequestEmail organization with
    | None => (w', inl tt)
    | Some e => (w', inr e)
    end.

(** The normalization of the submitted email *)
Definition normalize (e : jstring) : jstring := trim (toLowerCase e).

(** The object given to [values] *)
Definition request_values (body : NewOrganizationRequest)
    (email : jstring) : row :=
  ∅
  |> with_entry "name" (Some (VText (name body)))
  |> with_entry "email" (Some (VText email))
  |> with_entry "phone_number" (VText <$> phone_number body)
  |> with_entry "url" (Some (VText (url body)))
  |> with_entry "location_name" (Some (VText (location_name body)))
  |> with_entry "latitude" (VNumeric <$> latitude body)
  |> with_entry "longitude" (VNumeric <$> longitude body).

(** [organizationRouter.post('/request', ...)] *)
Definition post_request (req_body : RequestBody) : M unit :=
  let* body := schema_parse req_body in
  let email := normalize (email body) in
  let* checkAccountRequest :=
    select_first "organization_account" ["id"] "email" (VText email) in
  if bool_decide (is_Some checkAccountRequest) then
    res_status 400;;
    throw (Error (js "An organization with this email account already exists"))
  else
  let* checkPendingRequest :=
    select_first "organization_request" ["id"] "email" (VText email) in
  if bool_decide (is_Some checkPendingRequest) then
    res_status 400;;
    throw (Error (js "A request with this email is already pending"))
  else
  let* organization :=
    insert_first "organization_request" (request_values body email) in
  match organization with
  | None => throw (Error (js "Failed to create organization request"))
  | Some organization =>
      try_catch (send_mail organization)
        (fun error =>
           console_error
             (js "Failed to send organization request email to admin"));;
      res_json ∅
  end.

(** The world a rejected signup leaves: the incoming one with the status
    set to 400 *)
Definition rejected_world (d : database) : World :=
  {| db := d; res := {| statusCode := 400; sent := None |};
     mailed := []; console := [] |}.

(** The row the engine stores for a body, in a table [requests] *)
Definition stored_row (requests : table) (body : NewOrganizationRequest) : row :=
  (fill_defaults (tbl_schema requests)
                 (request_values body (normalize (email body)))
                 (tbl_seq requests)).1.

Definition next_seq (requests : table) (body : NewOrganizationRequest) : Z :=
  (fill_defaults (tbl_schema requests)
                 (request_values body (normalize (email body)))
                 (tbl_seq requests)).2.

(** The world an accepted signup leaves: the row appended, the mailer
    called with it, its failure logged if it threw, and [{}] sent with
    the status left at 200 *)
Definition accepted_world (d : database) (requests : table)
    (body : NewOrganizationRequest) : World :=
  let stored := stored_row requests body in
  {| db := <["organization_request" :=
               {| tbl_schema := tbl_schema requests;
                  tbl_rows := tbl_rows requests ++ [stored];
                  tbl_seq := next_seq requests body |}]> d;
     res := {| statusCode := 200; sent := Some ∅ |};
     mailed := [stored];
     console :=
       match sendAdminOrganizationRequestEmail stored with
       | None => []
       | Some _ => [js "Failed to send organization request email to admin"]
       end |}.

(** The world a signup leaves when the engine refuses the row: only the
    sequence has moved *)
Definition refused_world (d : database) (requests : table)
    (body : NewOrganizationRequest) : World :=
  {| db := <["organization_request" :=
               {| tbl_schema := tbl_schema requests;
                  tbl_rows := tbl_rows requests;
                  tbl_seq := next_seq requests body |}]> d;
     res := {| statusCode := 200; sent := None |};
     mailed := []; console := [] |}.

(** Row [r] holds [e] in its email column. *)
Definition has_email (e : jstring) (r : row) : Prop :=
  r !! "email" = Some (VText e).

(** No pending request has the email of an approved account. *)
Definition emails_apart (d : database) : Prop :=
  forall accounts requests a r v,
    d !! "organization_account" = Some accounts ->
    d !! "organization_request" = Some requests ->
    a ∈ tbl_rows accounts -> r ∈ tbl_rows requests ->
    a !! "email" = Some v -> r !! "email" ≠ Some v.

#[global] Instance has_email_dec (e : jstring) (r : row) :
  Decision (has_email e r).
Proof. unfold has_email. apply _. Defined.

End Handler.

(** *** A concrete setting

    Used to run the handler on examples: the schema lets every body
    through, every value fits its column ([accepts_all]), the mailer
    returns or throws as chosen, and lower-casing is that of the ASCII
    letters, which is what [toLowerCase] does on a string of ASCII code
    units. *)
Definition parse_any (body : NewOrganizationRequest)
  : option NewOrganizationRequest := Some body.

Definition toLowerCase_ascii (s : jstring) : jstring :=
  (fun c => if (65 <=? c)%N && (c <=? 90)%N then (c + 32)%N else c) <$> s.

Definition mailer_returns (organization : row) : option exception := None.

Definition mailer_throws (organization : row) : option exception :=
  Some MailError.

(** The body of the spec's scenario *)
Definition helping_hands : NewOrganizationRequest :=
  {| name := js "Helping Hands"; email := js "Info@Helpers.org";
     phone_number := None; url := js "https://helpers.org";
     location_name := js "Springfield";
     latitude := None; longitude := None |}.

(** The same organization, its email typed with other casing and with
    blanks around it *)
Definition helping_hands_again : NewOrganizationRequest :=
  {| name := js "Helping Hands"; email := js "  INFO@helpers.ORG ";
     phone_number := Some (js "555-0100"); url := js "https://helpers.example";
     location_name := js "Springfield";
     latitude := None; longitude := None |}.

(** A database in which the organization has its approved account *)
Definition with_account : database :=
  execute accepts_all migrated
    (Insert "organization_account"
       {[ "name" := VText (js "Helping Hands");
          "email" := VText (js "info@helpers.org");
          "phone_number" := VText (js "555-0100");
          "url" := VText (js "https://helpers.org");
          "password" := VText (js "$2b$10$hash");
          "location_name" := VText (js "Springfield") ]}).

(** Its account table and the one row of it *)
Definition account_table : table :=
  default (fresh_table []) (with_account !! "organization_account").

Definition the_account : row := default ∅ (head (tbl_rows account_table)).

(** A database with that account and, besides, a pending request of
    another organization; and a third organization that signs up *)
Definition with_account_and_request : database :=
  execute accepts_all with_account
    (Insert "organization_request"
       (request_row "first@helpers.org" "https://first.helpers.org")).

Definition second_harvest : NewOrganizationRequest :=
  {| name := js "Second Harvest"; email := js " Contact@Second.org";
     phone_number := None; url := js "https://second.org";
     location_name := js "Shelbyville";
     latitude := None; longitude := None |}.

(** A database in which another pending request has the url already *)
Definition url_taken : database :=
  execute accepts_all migrated
    (Insert "organization_request"
       (request_row "first@helpers.org" "https://helpers.org")).

(** The row stored for [helping_hands] by the freshly migrated database *)
Definition first_stored : row :=
  stored_row toLowerCase_ascii (fresh_table organization_request_columns)
             helping_hands.

(** The handler in the concrete setting, with a mailer of choice *)
Definition run_signup (mailer : row -> option exception)
    (body : NewOrganizationRequest) (d : database) : World * (unit + exception) :=
  post_request NewOrganizationRequest parse_any toLowerCase_ascii mailer
               accepts_all body (incoming d).

(** The database after [helping_hands] has signed up once, and its table
    of pending requests *)
Definition after_first : database :=
  db (run_signup mailer_returns helping_hands migrated).1.


End Server.

(** * Properties *)

(** ** Strings *)

Module JsStringFacts.

Example split_of_empty : split comma (js "") = [js ""].
Proof. reflexivity. Qed.

Example split_keeps_empty_pieces :
  split comma (js "a,,b,") = [js "a"; js ""; js "b"; js ""].
Proof. reflexivity. Qed.

Example trim_strips_both_ends :
  trim ([160; 9] ++ js "First Aid" ++ [10; 8232])%N = js "First Aid".
Proof. reflexivity. Qed.

Example slice_counts_from_the_end : slice (js "abcdef") (-3) 5 = js "de".
Proof. reflexivity. Qed.

Example join_puts_separators :
  join (js ", ") [js "Teaching"; js "First Aid"] = js "Teaching, First Aid".
Proof. reflexivity. Qed.

Lemma slice_prefix (s : jstring) (n : Z) :
  0 <= n -> slice s 0 n = take (Z.to_nat n) s.
Proof.
  intros Hn. unfold slice, clamp_index, jlength.
  replace (0 <? 0) with false by reflexivity.
  destruct (Z.ltb_spec n 0) as [Hneg | _]; [lia|].
  destruct (Z.leb_spec (Z.min n (Z.of_nat (length s)))
                       (Z.min 0 (Z.of_nat (length s)))) as [Hle | Hlt].
  - destruct s as [|c s'].
    + by rewrite take_nil.
    + assert (n = 0) as -> by (cbn [length] in Hle; lia). done.
  - rewrite (Z.min_l 0) by lia. rewrite Z.sub_0_r.
    change (Z.to_nat 0) with 0%nat. rewrite drop_0.
    destruct (Z.le_ge_cases n (Z.of_nat (length s))).
    + by rewrite Z.min_l.
    + rewrite Z.min_r by lia. rewrite Nat2Z.id.
      rewrite !take_ge; [done | lia | lia].
Qed.

Lemma trimStart_ws_app (l s : jstring) :
  Forall (fun c => is_ws c = true) l -> trimStart (l ++ s) = trimStart s.
Proof.
  induction 1 as [|c l Hc _ IH]; [done|].
  cbn [app trimStart]. by rewrite Hc.
Qed.

Lemma trimStart_ws (l : jstring) :
  Forall (fun c => is_ws c = true) l -> trimStart l = [].
Proof.
  intros H. rewrite <- (app_nil_r l). by rewrite trimStart_ws_app.
Qed.

Lemma trimStart_head (s : jstring) :
  (forall c, head s = Some c -> is_ws c = false) -> trimStart s = s.
Proof.
  destruct s as [|c s']; [done|]. intros H.
  cbn [trimStart]. by rewrite (H c eq_refl).
Qed.

(** [trimStart] splits its argument into a run of whitespace and a rest
    that does not start with whitespace. *)
Lemma trimStart_split (s : jstring) :
  exists l, s = l ++ trimStart s ∧ Forall (fun c => is_ws c = true) l ∧
            (forall c, head (trimStart s) = Some c -> is_ws c = false).
Proof.
  induction s as [|c s' (l & Heq & Hl & Hhd)].
  - exists []. by split_and!.
  - cbn [trimStart]. destruct (is_ws c) eqn:Hc.
    + exists (c :: l). split_and!; [by rewrite <- app_comm_cons, <- Heq | by constructor | done].
    + exists []. split_and!; [done | constructor |].
      intros c' [= <-]. done.
Qed.

(** [trim] meets the specification of trimming. *)
Lemma trim_spec (s : jstring) : Client.spec_trimmed s (trim s).
Proof.
  destruct (trimStart_split s) as (l & Hs & Hl & Hhd).
  destruct (trimStart_split (reverse (trimStart s))) as (r & Hr & Hrws & Hlast).
  exists l, (reverse r). unfold trim, trimEnd.
  set (m := trimStart s) in *. set (t := trimStart (reverse m)) in *.
  assert (m = reverse t ++ reverse r) as Hm.
  { rewrite <- (reverse_involutive m), Hr. by rewrite reverse_app. }
  split_and!.
  - by rewrite <- Hm.
  - done.
  - by apply Forall_reverse.
  - intros c Hc. apply Hhd. rewrite Hm.
    destruct (reverse t) as [|c0 t']; [done|].
    by injection Hc as ->.
  - intros c Hc. rewrite last_reverse in Hc. by apply Hlast.
Qed.

(** The specification of trimming determines its result. *)
Lemma trim_unique (s t : jstring) : Client.spec_trimmed s t -> t = trim s.
Proof.
  intros (l & r & -> & Hl & Hr & Hhd & Hlast).
  unfold trim, trimEnd. rewrite trimStart_ws_app by done.
  destruct t as [|c t'].
  - cbn [app]. by rewrite (trimStart_ws r Hr).
  - rewrite (trimStart_head ((c :: t') ++ r)).
    2:{ intros c' [= <-]. by apply Hhd. }
    rewrite reverse_app, trimStart_ws_app by by apply Forall_reverse.
    rewrite trimStart_head; [by rewrite reverse_involutive|].
    intros c'. rewrite head_reverse. apply Hlast.
Qed.

Lemma split_nonempty (sep : N) (s : jstring) : split sep s ≠ [].
Proof.
  destruct s as [|c s']; cbn [split]; [done|].
  destruct (c =? sep)%N; [done|]. by destruct (split sep s').
Qed.

Lemma join_cons (sep p : jstring) (ps : list jstring) :
  ps ≠ [] -> join sep (p :: ps) = p ++ sep ++ join sep ps.
Proof. by destruct ps. Qed.

(** [split] meets the specification of splitting. *)
Lemma split_spec (s : jstring) : Client.spec_split s (split comma s).
Proof.
  split; [apply split_nonempty|].
  induction s as [|c s' [IHfree IHjoin]].
  - split; [|done]. constructor; [|constructor]. by intros ?%elem_of_nil.
  - cbn [split]. destruct (N.eqb_spec c comma) as [-> | Hne].
    + split.
      * constructor; [by intros ?%elem_of_nil | done].
      * rewrite join_cons by apply split_nonempty. by rewrite IHjoin.
    + pose proof (split_nonempty comma s') as Hnil.
      destruct (split comma s') as [|seg segs]; [done|].
      apply Forall_cons in IHfree as [Hseg Hsegs].
      split.
      * constructor; [|done].
        intros [?|?]%elem_of_cons; [by subst | done].
      * rewrite <- IHjoin. by destruct segs.
Qed.

(** The specification of splitting determines its result. *)
Lemma split_app_free (seg rest : jstring) :
  comma ∉ seg ->
  split comma (seg ++ comma :: rest) = seg :: split comma rest.
Proof.
  induction seg as [|c seg IH]; intros Hfree.
  - done.
  - cbn [app split]. destruct (N.eqb_spec c comma) as [-> | Hne].
    + exfalso. apply Hfree. by left.
    + rewrite IH; [done|]. intros Hin. apply Hfree. by right.
Qed.

Lemma split_free (seg : jstring) : comma ∉ seg -> split comma seg = [seg].
Proof.
  induction seg as [|c seg IH]; intros Hfree; [done|].
  cbn [split]. destruct (N.eqb_spec c comma) as [-> | Hne].
  - exfalso. apply Hfree. by left.
  - rewrite IH; [done|]. intros Hin. apply Hfree. by right.
Qed.

Lemma split_unique (s : jstring) (segs : list jstring) :
  Client.spec_split s segs -> segs = split comma s.
Proof.
  intros (Hne & Hfree & <-).
  induction segs as [|seg segs IH]; [done|].
  apply Forall_cons in Hfree as [Hseg Hsegs].
  destruct segs as [|seg' segs'].
  - cbn [join]. by rewrite split_free.
  - rewrite join_cons by done. cbn [app].
    rewrite split_app_free by done. f_equal. by apply IH.
Qed.

End JsStringFacts.

(** ** The profile page *)

Module ClientFacts.

Import Client JsStringFacts.

Lemma trimmed_all (segs trimmed : list jstring) :
  Forall2 spec_trimmed segs trimmed <-> trimmed = trim <$> segs.
Proof.
  split.
  - induction 1 as [|seg t segs trimmed Ht _ IH]; [done|].
    cbn. by rewrite IH, (trim_unique seg t Ht).
  - intros ->. induction segs as [|seg segs IH]; constructor; [|done].
    apply trim_spec.
Qed.

Lemma truthy_nonempty (s : jstring) : truthy s = true <-> s ≠ [].
Proof. by destruct s. Qed.

(** C5. For every string [s], the list [parsedSkills] computes is the one
    and only list the specification's wording allows: the pieces of [s]
    between its commas, each with the whitespace at its ends removed, the
    empty ones dropped, in order and with repetitions. On
    "Teaching, , First Aid,," it is ["Teaching"; "First Aid"]. *)
Theorem parsedSkills_meets_spec :
  (forall s out, spec_skills s out <-> out = parsedSkills s) ∧
  parsedSkills (js "Teaching, , First Aid,,") = [js "Teaching"; js "First Aid"].
Proof.
  split; [|by vm_compute].
  intros s out. unfold spec_skills, parsedSkills. split.
  - intros (segs & trimmed & Hsplit & Htrim & ->).
    apply split_unique in Hsplit as ->. apply trimmed_all in Htrim as ->.
    apply list_filter_iff. intros t. by rewrite truthy_nonempty.
  - intros ->. exists (split comma s), (trim <$> split comma s).
    split_and!; [apply split_spec | by apply trimmed_all |].
    apply list_filter_iff. intros t. by rewrite truthy_nonempty.
Qed.

(** C6. Whatever is typed into the description field, the description the
    form holds after [updateForm] has at most 300 code units: a longer
    input is cut to its first 300, a shorter one is kept as it is. *)
Theorem updateForm_description_bounded (value : jstring) (s : State) :
  let stored := f_description (form (updateForm Description value s)) in
  jlength stored <= DESCRIPTION_MAX_LENGTH ∧
  stored = take 300 value ∧
  (if DESCRIPTION_MAX_LENGTH <? jlength value
   then jlength stored = DESCRIPTION_MAX_LENGTH
   else stored = value).
Proof.
  cbn [updateForm form set_field f_description nextValue].
  unfold DESCRIPTION_MAX_LENGTH, jlength.
  rewrite slice_prefix by lia. change (Z.to_nat 300) with 300%nat.
  split_and!.
  - rewrite length_take. lia.
  - done.
  - destruct (Z.ltb_spec 300 (Z.of_nat (length value))).
    + rewrite length_take. lia.
    + apply take_ge. lia.
Qed.

(** C10. The privacy seeded into the form is 'private' exactly when the
    server reported the string 'private'; for every other report, null
    and any other string included, it is 'public'. *)
Theorem getDefaultFormState_privacy (p : VolunteerProfileResponse) :
  (f_privacy (getDefaultFormState p) = js "private" <->
   privacy p = Some (js "private")) ∧
  (f_privacy (getDefaultFormState p) = js "public" <->
   privacy p ≠ Some (js "private")).
Proof.
  unfold getDefaultFormState. cbn [f_privacy].
  destruct (decide (privacy p = Some (js "private"))) as [Heq | Hne].
  - split; split; intros H; first [done | by vm_compute in H].
  - split; split; intros H; first [done | by vm_compute in H].
Qed.

End ClientFacts.

Module PageFacts.

Import Client.

Lemma mounted_coherent : coherent mounted.
Proof.
  unfold coherent. cbn. split_and!; try done.
  - right. left. done.
  - by left.
Qed.

Lemma default_privacy (p : VolunteerProfileResponse) :
  f_privacy (getDefaultFormState p) = js "public" ∨
  f_privacy (getDefaultFormState p) = js "private".
Proof.
  unfold getDefaultFormState. cbn [f_privacy]. case_decide; auto.
Qed.

(** Closes one case of the preservation proof once the flags and the
    requests in flight are known. *)
Ltac close_coherent :=
  cbn in *; simplify_eq;
  split_and!;
  first
    [ done
    | by left
    | by right; left
    | by right; right; split_and!; eauto
    | by eauto using default_privacy
    | intros; simplify_eq; by eauto using default_privacy
    | match goal with H : is_Some None |- _ => by destruct H end
    | match goal with H : _ -> is_Some None |- _ => by destruct H end
    | match goal with
      | H : is_Some (Some _) -> ?fe = None, H' : truthy_opt ?fe = true |- _ =>
          rewrite H in H' by eauto; done
      end ].

(** Every step keeps the page coherent. *)
Lemma step_coherent (e : Event) (sys sys' : System) :
  coherent sys -> step e sys = Some sys' -> coherent sys'.
Proof.
  destruct sys as [[pr fm ld sv fe se sm em] fl].
  unfold coherent. cbn.
  intros (Hfl & Hview & Hedit & Hfe & Hpriv) Hstep.
  destruct e as [ev | i r]; cbn in Hstep.
  - destruct (enabled ev _) eqn:Hen; [|done]. injection Hstep as <-.
    destruct ld, sv, em, pr as [p|];
      destruct Hfl as [(-> & ? & ?)
                      | [(-> & ? & ? & ? & ? & ?) | ((b & ->) & ? & ? & ?)]];
      try done.
    all: destruct ev; cbn in Hen; unfold is_page, view in Hen; cbn in Hen;
      try done.
    all: destruct (truthy_opt fe) eqn:Hfet; try done.
    all: try close_coherent.
    all: unfold handle, onSave_begin; cbn.
    all: close_coherent.
  - destruct (fl !! i) as [req|] eqn:Hreq; [|done].
    destruct ld, sv, em, pr as [p|];
      destruct Hfl as [(-> & ? & ?)
                      | [(-> & ? & ? & ? & ? & ?) | ((b & ->) & ? & ? & ?)]];
      try done.
    all: destruct i as [|i]; try done; cbn in Hreq; simplify_eq.
    all: destruct r as [response | error]; cbn.
    all: close_coherent.
Qed.

Lemma run_coherent (es : list Event) (sys sys' : System) :
  coherent sys -> run es sys = Some sys' -> coherent sys'.
Proof.
  revert sys. induction es as [|e es IH]; intros sys Hsys Hrun.
  - by injection Hrun as <-.
  - cbn in Hrun. destruct (step e sys) as [sys1|] eqn:Hstep; [|done].
    eauto using step_coherent.
Qed.

Lemma reachable_coherent (sys : System) : reachable sys -> coherent sys.
Proof. intros [es Hrun]. eauto using run_coherent, mounted_coherent. Qed.

(** The field edits leave everything but the form and the two save
    banners alone. *)
Lemma edits_frame (edits : list UserEvent) (sys sys' : System) :
  Forall (fun ev => is_edit ev = true) edits ->
  run (User <$> edits) sys = Some sys' ->
  profile (st sys') = profile (st sys) ∧
  isEditMode (st sys') = isEditMode (st sys) ∧
  saving (st sys') = saving (st sys) ∧
  loading (st sys') = loading (st sys) ∧
  fetchError (st sys') = fetchError (st sys) ∧
  inflight sys' = inflight sys.
Proof.
  intros Hedits. revert sys.
  induction Hedits as [|ev edits Hev _ IH]; intros sys Hrun.
  - by injection Hrun as <-.
  - cbn in Hrun. destruct (enabled ev (st sys)); [|done].
    apply IH in Hrun as (-> & -> & -> & -> & -> & ->).
    by destruct ev.
Qed.

Lemma is_page_fields (s s' : State) :
  loading s' = loading s -> fetchError s' = fetchError s ->
  profile s' = profile s -> is_page s' = is_page s.
Proof. unfold is_page, view. by intros -> -> ->. Qed.

(** C7. From a page that shows a loaded profile [p], enter edit mode and
    make any sequence of field edits: Cancel is available, and after it the
    form is the one seeded from [p], which is the form the page had before
    the edit began; the profile is untouched and the page is back in view
    mode. *)
Theorem cancel_restores_committed_form
    (sys sys1 sys2 : System) (p : VolunteerProfileResponse)
    (edits : list UserEvent) :
  reachable sys ->
  profile (st sys) = Some p ->
  step (User ClickEdit) sys = Some sys1 ->
  Forall (fun ev => is_edit ev = true) edits ->
  run (User <$> edits) sys1 = Some sys2 ->
  exists sys3,
    step (User ClickCancel) sys2 = Some sys3 ∧
    form (st sys3) = getDefaultFormState p ∧
    form (st sys3) = form (st sys) ∧
    profile (st sys3) = Some p ∧
    isEditMode (st sys3) = false.
Proof.
  intros Hreach Hp Hedit Hedits Hrun.
  pose proof (reachable_coherent sys Hreach) as (Hfl & Hview & _).
  cbn [step] in Hedit.
  destruct (enabled ClickEdit (st sys)) eqn:Hen; [|done].
  injection Hedit as <-. cbn [enabled] in Hen.
  apply andb_prop in Hen as [Hpage Hmode]. apply negb_true_iff in Hmode.
  assert (saving (st sys) = false) as Hsaving.
  { destruct Hfl as [(_ & _ & ?) | [(_ & _ & ? & _) | (_ & _ & _ & ?)]];
      [done | done | congruence]. }
  apply edits_frame in Hrun as (Hp2 & Hm2 & Hs2 & Hl2 & Hf2 & _); [|done].
  cbn in Hp2, Hm2, Hs2, Hl2, Hf2.
  assert (enabled ClickCancel (st sys2) = true) as Hcancel.
  { cbn [enabled]. rewrite (is_page_fields (st sys) (st sys2)) by done.
    by rewrite Hpage, Hm2, Hs2, Hsaving. }
  eexists. cbn [step]. rewrite Hcancel. split; [done|].
  cbn [handle st]. unfold onCancelEdit. rewrite Hp2, Hp. cbn.
  split_and!; try done. symmetry. by apply Hview.
Qed.

Lemma cancel_restores_committed_form_witness :
  exists sys3,
    step (User ClickCancel)
         (default sample_editing (run (User <$> sample_edits) sample_editing))
      = Some sys3 ∧
    form (st sys3) = getDefaultFormState sample_profile ∧
    form (st sys3) = form (st sample_viewing) ∧
    profile (st sys3) = Some sample_profile ∧
    isEditMode (st sys3) = false.
Proof.
  apply (cancel_restores_committed_form
           sample_viewing sample_editing _ sample_profile sample_edits).
  - exists [Settle 0 (Fulfilled sample_profile)]. reflexivity.
  - reflexivity.
  - reflexivity.
  - repeat constructor.
  - reflexivity.
Defined.

(** C8 as stated fails: Save is clicked on the page editing
    [sample_profile] and the request is rejected with an [Error] whose
    message is the empty string. The page stays in edit mode with its
    form, but what [saveError] is set to is the empty string, which
    renders no banner: no message is there for the user. *)
Lemma failed_save_with_empty_message_shows_nothing :
  exists sys1 sys2,
    step (User ClickSave) sample_editing = Some sys1 ∧
    step (Settle 0 (Rejected (ErrorObject (js "")))) sys1 = Some sys2 ∧
    isEditMode (st sys2) = true ∧
    form (st sys2) = form (st sample_editing) ∧
    saveError (st sys2) = Some (js "") ∧
    saveErrorBanner (st sys2) = None.
Proof. eexists _, _. split_and!; reflexivity. Qed.

(** C8, amended. On a page in edit mode whose Save button can be clicked,
    a click issues the PUT and nothing but the answer to it can happen
    next; when the request fails, the page is still in edit mode, the form
    is the one it was when Save was clicked, and [saveError] is set to the
    message of the thrown [Error], or to 'Failed to save profile' when
    what was thrown is no [Error]; the banner shows that message whenever
    it is not the empty string. *)
Theorem failed_save_keeps_edits (sys : System) :
  reachable sys ->
  enabled ClickSave (st sys) = true ->
  exists sys1 body,
    step (User ClickSave) sys = Some sys1 ∧
    inflight sys1 = [PutProfile body] ∧
    (forall ev, enabled ev (st sys1) = false) ∧
    forall error, exists sys2 message,
      step (Settle 0 (Rejected error)) sys1 = Some sys2 ∧
      isEditMode (st sys2) = true ∧
      form (st sys2) = form (st sys) ∧
      message =
        match error with
        | ErrorObject own => own
        | NotAnError => js "Failed to save profile"
        end ∧
      saveError (st sys2) = Some message ∧
      (message ≠ js "" -> saveErrorBanner (st sys2) = Some message) ∧
      saving (st sys2) = false.
Proof.
  intros Hreach Hen.
  pose proof (reachable_coherent sys Hreach) as (Hfl & _ & _ & Hfe & _).
  destruct sys as [[pr fm ld sv fe se sm em] fl]. cbn in *.
  unfold is_page, view in Hen. cbn in Hen.
  destruct ld; [done|]. destruct (truthy_opt fe) eqn:Hfet; [done|].
  destruct pr as [p|]; [|done]. destruct em; [|done]. destruct sv; [done|].
  destruct Hfl as [(-> & _) | [(_ & ? & _) | (_ & _ & ? & _)]]; try done.
  eexists _, _. unfold is_page, view. cbn. rewrite Hfet.
  split_and!; try done.
  - intros ev. destruct ev; cbn; unfold is_page, view; cbn; by rewrite ?Hfet.
  - intros error. eexists _, _. split; [reflexivity|]. cbn.
    split_and!; try reflexivity.
    intros Hmessage. unfold saveErrorBanner. cbn.
    destruct error as [own|]; cbn in *; [|reflexivity].
    by destruct own.
Qed.

Lemma failed_save_keeps_edits_witness :
  exists sys1 body,
    step (User ClickSave) sample_editing = Some sys1 ∧
    inflight sys1 = [PutProfile body] ∧
    (forall ev, enabled ev (st sys1) = false) ∧
    forall error, exists sys2 message,
      step (Settle 0 (Rejected error)) sys1 = Some sys2 ∧
      isEditMode (st sys2) = true ∧
      form (st sys2) = form (st sample_editing) ∧
      message =
        match error with
        | ErrorObject own => own
        | NotAnError => js "Failed to save profile"
        end ∧
      saveError (st sys2) = Some message ∧
      (message ≠ js "" -> saveErrorBanner (st sys2) = Some message) ∧
      saving (st sys2) = false.
Proof.
  apply (failed_save_keeps_edits sample_editing).
  - exists [Settle 0 (Fulfilled sample_profile); User ClickEdit]. reflexivity.
  - reflexivity.
Defined.

End PageFacts.

(** ** The database *)

Module DatabaseFacts.

Import Database.

Lemma distinct_on_snoc (col : string) (rows : list row) (r : row) :
  distinct_on col rows ->
  (forall v, r !! col = Some v ->
             Forall (fun r0 : row => r0 !! col ≠ Some v) rows) ->
  distinct_on col (rows ++ [r]).
Proof.
  induction rows as [|r1 rows IH]; intros Hrows Hnew.
  - cbn. split; [|done]. intros v _. constructor.
  - destruct Hrows as [Hr1 Hrows]. cbn [app distinct_on]. split.
    + intros v Hv. apply Forall_app. split; [by apply Hr1|].
      constructor; [|constructor]. intros Hr.
      specialize (Hnew v Hr). by apply Forall_cons in Hnew as [? _].
    + apply IH; [done|]. intros v Hv.
      specialize (Hnew v Hv). by apply Forall_cons in Hnew as [_ ?].
Qed.

Lemma Forall_filter_keep {A} (P : A -> Prop) (Q : A -> Prop)
    `{forall x, Decision (Q x)} (l : list A) :
  Forall P l -> Forall P (filter Q l).
Proof.
  induction 1 as [|x l Hx _ IH]; [constructor|].
  rewrite filter_cons. case_decide; [by constructor | done].
Qed.

Lemma distinct_on_filter (col : string) (Q : row -> Prop)
    `{forall r, Decision (Q r)} (rows : list row) :
  distinct_on col rows -> distinct_on col (filter Q rows).
Proof.
  induction rows as [|r rows IH]; [done|]. intros [Hr Hrows].
  rewrite filter_cons. case_decide; [|by apply IH].
  split; [|by apply IH]. intros v Hv. by apply Forall_filter_keep, Hr.
Qed.

(** Two positions of a list that is distinct on [col] holding the same
    value there are one position. *)
Lemma distinct_on_lookup (col : string) (rows : list row)
    (i j : nat) (ri rj : row) (v : value) :
  distinct_on col rows ->
  rows !! i = Some ri -> rows !! j = Some rj ->
  ri !! col = Some v -> rj !! col = Some v ->
  i = j.
Proof.
  revert i j. induction rows as [|r rows IH]; intros i j Hd Hi Hj Hvi Hvj.
  - done.
  - destruct Hd as [Hr Hd]. destruct i as [|i], j as [|j]; cbn in Hi, Hj.
    + done.
    + injection Hi as ->. specialize (Hr v Hvi).
      rewrite Forall_lookup in Hr. by destruct (Hr j rj Hj).
    + injection Hj as ->. specialize (Hr v Hvj).
      rewrite Forall_lookup in Hr. by destruct (Hr i ri Hi).
    + f_equal. by apply IH.
Qed.

Section Engine.

Variable type_accepts : col_type -> value -> bool.

(** A row the table accepts can be appended without breaking it. *)
Lemma accepted_sound (t : table) (r : row) (seq : Z) :
  table_sound t ->
  row_accepted type_accepts t r = true ->
  table_sound {| tbl_schema := tbl_schema t;
                 tbl_rows := tbl_rows t ++ [r]; tbl_seq := seq |}.
Proof.
  unfold table_sound, row_accepted. cbn [tbl_schema tbl_rows].
  intros Ht [_ Hcols]%andb_prop.
  apply Is_true_true, forallb_True in Hcols.
  rewrite Forall_forall in Ht, Hcols. apply Forall_forall. intros c Hc.
  specialize (Ht c Hc) as [Hnn Huq]. specialize (Hcols c Hc).
  apply Is_true_true in Hcols. unfold column_accepts in Hcols.
  split.
  - intros Hc_nn. apply Forall_app. split; [by apply Hnn|].
    constructor; [|constructor].
    destruct (r !! col_name c); [done|]. by rewrite Hc_nn in Hcols.
  - intros Hc_uq. apply distinct_on_snoc; [by apply Huq|].
    intros v Hv. rewrite Hv, Hc_uq in Hcols.
    apply andb_prop in Hcols as [_ Hfresh].
    by apply bool_decide_eq_true in Hfresh.
Qed.

Lemma insert_into_sound (tbl : string) (r : row) (db : database) :
  db_sound db -> db_sound (insert_into type_accepts tbl r db).1.
Proof.
  intros [Hschema Hsound]. unfold insert_into.
  destruct (db !! tbl) as [t|] eqn:Ht; [|done].
  destruct (fill_defaults (tbl_schema t) r (tbl_seq t)) as [r' seq'].
  destruct (row_accepted type_accepts t r') eqn:Hacc; cbn [fst].
  - split.
    + intros tbl'. destruct (decide (tbl = tbl')) as [<- | Hne].
      * rewrite lookup_insert_eq. cbn. by rewrite <- Hschema, Ht.
      * by rewrite lookup_insert_ne.
    + intros tbl' t'. destruct (decide (tbl = tbl')) as [<- | Hne].
      * rewrite lookup_insert_eq. intros [= <-].
        apply accepted_sound; eauto.
      * rewrite lookup_insert_ne by done. apply Hsound.
  - split.
    + intros tbl'. destruct (decide (tbl = tbl')) as [<- | Hne].
      * rewrite lookup_insert_eq. cbn. by rewrite <- Hschema, Ht.
      * by rewrite lookup_insert_ne.
    + intros tbl' t'. destruct (decide (tbl = tbl')) as [<- | Hne].
      * rewrite lookup_insert_eq. intros [= <-]. by apply (Hsound tbl t).
      * rewrite lookup_insert_ne by done. apply Hsound.
Qed.

Lemma delete_from_sound (tbl : string) (cond : row -> bool) (db : database) :
  db_sound db -> db_sound (delete_from tbl cond db).
Proof.
  intros [Hschema Hsound]. unfold delete_from.
  destruct (db !! tbl) as [t|] eqn:Ht; [|done].
  split.
  - intros tbl'. destruct (decide (tbl = tbl')) as [<- | Hne].
    + rewrite lookup_insert_eq. cbn. by rewrite <- Hschema, Ht.
    + by rewrite lookup_insert_ne.
  - intros tbl' t'. destruct (decide (tbl = tbl')) as [<- | Hne].
    + rewrite lookup_insert_eq. intros [= <-].
      specialize (Hsound tbl t Ht). unfold table_sound in *.
      cbn [tbl_schema tbl_rows]. eapply Forall_impl; [exact Hsound|].
      intros c [Hnn Huq]. split; intros Hc.
      * by apply Forall_filter_keep, Hnn.
      * by apply distinct_on_filter, Huq.
    + rewrite lookup_insert_ne by done. apply Hsound.
Qed.

Lemma migrated_tables :
  migrated =
  <["admin_account" := fresh_table admin_account_columns]>
    (<["volunteer_account" := fresh_table volunteer_account_columns]>
       (<["organization_request" := fresh_table organization_request_columns]>
          (<["organization_account" := fresh_table organization_account_columns]>
             ∅))).
Proof. reflexivity. Qed.

Lemma migrated_sound : db_sound migrated.
Proof.
  split; [done|]. intros tbl t Ht.
  assert (tbl_rows t = []) as Hrows.
  { rewrite migrated_tables in Ht.
    repeat (apply lookup_insert_Some in Ht as [[_ <-] | [_ Ht]]; [done|]).
    by rewrite lookup_empty in Ht. }
  unfold table_sound. rewrite Hrows. apply Forall_forall. intros c _.
  split; intros _; [constructor | done].
Qed.

Lemma reachable_sound (db : database) :
  db_reachable type_accepts db -> db_sound db.
Proof.
  intros [stmts <-]. induction stmts as [|stmt stmts IH] using rev_ind.
  - apply migrated_sound.
  - rewrite foldl_snoc. destruct stmt as [tbl r | tbl cond]; cbn [execute].
    + by apply insert_into_sound.
    + by apply delete_from_sound.
Qed.

(** The declaration of [col] in the schema [cols] *)
Lemma declared_unique_notNull (tbl col : string) :
  tbl ∈ ["organization_account"; "organization_request"] ->
  col ∈ ["email"; "url"] ->
  exists cols c,
    tbl_schema <$> migrated !! tbl = Some cols ∧
    c ∈ cols ∧ col_name c = col ∧
    col_unique c = true ∧ col_notNull c = true.
Proof.
  intros Htbl Hcol.
  repeat (apply elem_of_cons in Htbl as [-> | Htbl]);
    [| | by apply elem_of_nil in Htbl];
    (repeat (apply elem_of_cons in Hcol as [-> | Hcol]);
     [| | by apply elem_of_nil in Hcol]).
  - exists organization_account_columns,
      (unique (notNull (plain "email" (Varchar (Some 128%N))))).
    split_and!; try done. apply list_elem_of_In. cbn. tauto.
  - exists organization_account_columns,
      (unique (notNull (plain "url" (Varchar (Some 256%N))))).
    split_and!; try done. apply list_elem_of_In. cbn. tauto.
  - exists organization_request_columns,
      (unique (notNull (plain "email" (Varchar (Some 128%N))))).
    split_and!; try done. apply list_elem_of_In. cbn. tauto.
  - exists organization_request_columns,
      (unique (notNull (plain "url" (Varchar (Some 256%N))))).
    split_and!; try done. apply list_elem_of_In. cbn. tauto.
Qed.

(** C9. The migration declares [email] and [url] unique and not null in
    both [organization_account] and [organization_request]; hence, in
    every state the migrated database reaches by inserts and deletes, both
    tables exist with that declaration, every row has an email and a url,
    and no two rows of a table share an email or share a url. *)
Theorem email_and_url_unique (db : database) (tbl col : string) :
  db_reachable type_accepts db ->
  tbl ∈ ["organization_account"; "organization_request"] ->
  col ∈ ["email"; "url"] ->
  exists t c,
    up ∅ = Some migrated ∧
    db !! tbl = Some t ∧
    tbl_schema <$> migrated !! tbl = Some (tbl_schema t) ∧
    c ∈ tbl_schema t ∧ col_name c = col ∧
    col_unique c = true ∧ col_notNull c = true ∧
    Forall (fun r : row => is_Some (r !! col)) (tbl_rows t) ∧
    forall i j ri rj,
      tbl_rows t !! i = Some ri -> tbl_rows t !! j = Some rj ->
      ri !! col = rj !! col -> i = j.
Proof.
  intros Hreach Htbl Hcol.
  destruct (reachable_sound db Hreach) as [Hschema Hsound].
  destruct (declared_unique_notNull tbl col Htbl Hcol)
    as (cols & c & Hcols & Hc & <- & Huq & Hnn).
  specialize (Hschema tbl). rewrite Hcols in Hschema.
  destruct (db !! tbl) as [t|] eqn:Ht; [|done].
  injection Hschema as <-.
  specialize (Hsound tbl t Ht). unfold table_sound in Hsound.
  rewrite Forall_forall in Hsound. destruct (Hsound c Hc) as [Hfull Hdist].
  assert (holds_notNull c = true) as Hhn by (unfold holds_notNull; by rewrite Hnn).
  assert (holds_unique c = true) as Hhu by (unfold holds_unique; by rewrite Huq).
  specialize (Hfull Hhn). specialize (Hdist Hhu).
  exists t, c. split_and!; try done.
  intros i j ri rj Hi Hj Heq.
  rewrite Forall_lookup in Hfull. destruct (Hfull i ri Hi) as [v Hv].
  apply (distinct_on_lookup (col_name c) (tbl_rows t) i j ri rj v); try done.
  by rewrite <- Heq.
Qed.

End Engine.

Lemma email_and_url_unique_witness :
  exists t c,
    up ∅ = Some migrated ∧
    two_requests !! "organization_request" = Some t ∧
    tbl_schema <$> migrated !! "organization_request" = Some (tbl_schema t) ∧
    c ∈ tbl_schema t ∧ col_name c = "email" ∧
    col_unique c = true ∧ col_notNull c = true ∧
    Forall (fun r : row => is_Some (r !! "email")) (tbl_rows t) ∧
    forall i j ri rj,
      tbl_rows t !! i = Some ri -> tbl_rows t !! j = Some rj ->
      ri !! "email" = rj !! "email" -> i = j.
Proof.
  apply (email_and_url_unique accepts_all two_requests).
  - eexists. reflexivity.
  - repeat constructor.
  - repeat constructor.
Defined.

End DatabaseFacts.

(** ** The signup endpoint *)

Module ServerFacts.

Import Database Server.

Lemma first_filtered {B} (f : row -> B) (P : row -> Prop)
    `{forall x, Decision (P x)} (l : list row) :
  is_Some (head (f <$> filter P l)) <-> Exists P l.
Proof.
  induction l as [|x l IH].
  - split; [by intros [? ?] | by intros ?%Exists_nil].
  - rewrite filter_cons, Exists_cons. case_decide.
    + split; [by left | by eexists].
    + rewrite IH. tauto.
Qed.

Lemma fill_defaults_keeps (cols : list column) (r : row) (seq : Z)
    (k : string) (v : value) :
  r !! k = Some v -> (fill_defaults cols r seq).1 !! k = Some v.
Proof.
  revert r seq. induction cols as [|c cols IH]; intros r seq Hk; [done|].
  cbn [fill_defaults].
  destruct (col_type_of c); try by apply IH.
  destruct (r !! col_name c) eqn:Hc; [by apply IH|].
  apply IH. rewrite lookup_insert_ne; [done|]. by intros <-; congruence.
Qed.

Section Handler.

Variable RequestBody : Type.
Variable parse : RequestBody -> option NewOrganizationRequest.
Variable toLowerCase : jstring -> jstring.
Variable sendAdminOrganizationRequestEmail : row -> option exception.
Variable type_accepts : col_type -> value -> bool.

#[local] Abbreviation handler :=
  (post_request RequestBody parse toLowerCase
                sendAdminOrganizationRequestEmail type_accepts).
#[local] Abbreviation norm := (normalize toLowerCase).

Lemma request_values_email (body : NewOrganizationRequest) (e : jstring) :
  request_values body e !! "email" = Some (VText e).
Proof.
  unfold request_values, with_entry.
  destruct (longitude body), (latitude body), (phone_number body); cbn;
    by repeat (rewrite lookup_insert_ne by done); rewrite lookup_insert_eq.
Qed.

(** What the handler does, case by case, on a body the schema lets
    through and a database that has the two tables. *)
Lemma post_request_cases (req_body : RequestBody)
    (body : NewOrganizationRequest) (d : database) (accounts requests : table) :
  parse req_body = Some body ->
  d !! "organization_account" = Some accounts ->
  d !! "organization_request" = Some requests ->
  handler req_body (incoming d) =
    if decide (Exists (has_email (norm (email body))) (tbl_rows accounts)) then
      (rejected_world d,
       inr (Error (js "An organization with this email account already exists")))
    else if decide (Exists (has_email (norm (email body))) (tbl_rows requests)) then
      (rejected_world d,
       inr (Error (js "A request with this email is already pending")))
    else if row_accepted type_accepts requests (stored_row toLowerCase requests body) then
      (accepted_world toLowerCase sendAdminOrganizationRequestEmail d requests body,
       inl tt)
    else
      (refused_world toLowerCase d requests body, inr DatabaseError).
Proof.
  intros Hparse Hacc Hreq.
  unfold post_request, bind, schema_parse. rewrite Hparse.
  unfold ret, select_first, select_where. cbn [incoming db]. rewrite Hacc.
  cbn [mbind option_bind].
  destruct (decide (Exists _ (tbl_rows accounts))) as [Hex | Hnex].
  { rewrite bool_decide_eq_true_2 by by apply first_filtered. done. }
  rewrite bool_decide_eq_false_2 by by rewrite first_filtered.
  cbn [incoming db]. rewrite Hreq. cbn [mbind option_bind].
  destruct (decide (Exists _ (tbl_rows requests))) as [Hex' | Hnex'].
  { rewrite bool_decide_eq_true_2 by by apply first_filtered. done. }
  rewrite bool_decide_eq_false_2 by by rewrite first_filtered.
  unfold insert_first, insert_into. cbn [incoming db]. rewrite Hreq.
  unfold stored_row, accepted_world, refused_world, stored_row, next_seq.
  destruct (fill_defaults _ _ _) as [stored seq'] eqn:Hfill. cbn [fst snd].
  destruct (row_accepted type_accepts requests stored); [|done].
  cbn [executeTakeFirst head].
  unfold try_catch, send_mail, console_error, res_json. cbn.
  by destruct (sendAdminOrganizationRequestEmail stored).
Qed.

(** A handler that returns has parsed the body and found both tables. *)
Lemma post_request_returned (req_body : RequestBody) (d : database) (w : World) :
  handler req_body (incoming d) = (w, inl tt) ->
  exists body accounts requests,
    parse req_body = Some body ∧
    d !! "organization_account" = Some accounts ∧
    d !! "organization_request" = Some requests.
Proof.
  unfold post_request, bind, schema_parse.
  destruct (parse req_body) as [body|]; [|done].
  unfold ret, select_first, select_where. cbn [incoming db].
  destruct (d !! "organization_account") as [accounts|]; [|done].
  cbn [mbind option_bind].
  case_bool_decide; [done|]. cbn [incoming db].
  destruct (d !! "organization_request") as [requests|]; [|done].
  eauto 6.
Qed.

(** C1. When the schema lets the body through and the
    [organization_account] table holds a row whose email is the
    normalized (lower-cased, then trimmed) submitted email, the handler
    sets status 400 and throws 'An organization with this email account
    already exists'; nothing is sent and the database is as it was, so no
    request row has been added. *)
Theorem existing_account_rejected
    (req_body : RequestBody) (body : NewOrganizationRequest)
    (d : database) (accounts : table) (account : row) :
  parse req_body = Some body ->
  d !! "organization_account" = Some accounts ->
  account ∈ tbl_rows accounts ->
  account !! "email" = Some (VText (trim (toLowerCase (email body)))) ->
  exists w,
    handler req_body (incoming d) =
      (w, inr (Error (js "An organization with this email account already exists"))) ∧
    statusCode (res w) = 400 ∧
    sent (res w) = None ∧
    db w = d.
Proof.
  intros Hparse Hacc Hin Hemail. exists (rejected_world d).
  split; [|done].
  unfold post_request, bind, schema_parse. rewrite Hparse.
  unfold ret, select_first, select_where. cbn [incoming db]. rewrite Hacc.
  cbn [mbind option_bind].
  rewrite bool_decide_eq_true_2; [done|].
  apply first_filtered, Exists_exists. by exists account.
Qed.


(** C3, amended. When the schema lets the body through, neither table has
    the normalized email and the [organization_request] table takes the
    row (its declaration makes it refuse, among others, a url another
    pending request has), the handler answers 200 with [{}] whatever the
    mailer does, throwing included; the table has gained exactly the
    stored row, at its end, whose email is the normalized one; the mailer
    was called once, with that row; the other tables are as they were. *)
Theorem fresh_signup_stored
    (req_body : RequestBody) (body : NewOrganizationRequest)
    (d : database) (accounts requests : table) :
  parse req_body = Some body ->
  d !! "organization_account" = Some accounts ->
  ¬ Exists (has_email (norm (email body))) (tbl_rows accounts) ->
  d !! "organization_request" = Some requests ->
  ¬ Exists (has_email (norm (email body))) (tbl_rows requests) ->
  row_accepted type_accepts requests (stored_row toLowerCase requests body) = true ->
  exists w stored,
    handler req_body (incoming d) = (w, inl tt) ∧
    res w = {| statusCode := 200; sent := Some ∅ |} ∧
    tbl_rows <$> db w !! "organization_request" =
      Some (tbl_rows requests ++ [stored]) ∧
    stored !! "email" = Some (VText (trim (toLowerCase (email body)))) ∧
    mailed w = [stored] ∧
    forall tbl, tbl ≠ "organization_request" -> db w !! tbl = d !! tbl.
Proof.
  intros Hparse Hacc Hnone Hreq Hfresh Haccepted.
  pose proof (post_request_cases req_body body d accounts requests
                Hparse Hacc Hreq) as Hrun.
  rewrite !decide_False, Haccepted in Hrun by done.
  eexists _, (stored_row toLowerCase requests body).
  split; [exact Hrun|]. cbn [accepted_world db res mailed].
  split_and!; try done.
  - by rewrite lookup_insert_eq.
  - apply fill_defaults_keeps, request_values_email.
  - intros tbl Htbl. by rewrite lookup_insert_ne.
Qed.

(** C4, amended. Whenever the handler returns, the response has status
    200 and the empty object as its body; the stored record is the last
    row of [organization_request] and is what the mailer was called with,
    and it is not what was sent. *)
Theorem success_response_is_empty
    (req_body : RequestBody) (d : database) (w : World) :
  handler req_body (incoming d) = (w, inl tt) ->
  res w = {| statusCode := 200; sent := Some ∅ |} ∧
  exists stored requests',
    db w !! "organization_request" = Some requests' ∧
    last (tbl_rows requests') = Some stored ∧
    mailed w = [stored] ∧
    stored ≠ ∅ ∧
    sent (res w) ≠ Some stored.
Proof.
  intros Hrun.
  destruct (post_request_returned req_body d w Hrun)
    as (body & accounts & requests & Hparse & Hacc & Hreq).
  rewrite (post_request_cases req_body body d accounts requests
             Hparse Hacc Hreq) in Hrun.
  repeat case_decide; try done.
  destruct (row_accepted _ _ _); [|done].
  injection Hrun as <-. cbn [accepted_world db res mailed sent].
  assert (stored_row toLowerCase requests body ≠ ∅) as Hne.
  { intros Hempty.
    pose proof (fill_defaults_keeps (tbl_schema requests) _ (tbl_seq requests)
                  _ _ (request_values_email body (norm (email body)))) as Hk.
    fold (stored_row toLowerCase requests body) in Hk.
    by rewrite Hempty, lookup_empty in Hk. }
  split; [done|]. eexists _, _. split_and!.
  - by rewrite lookup_insert_eq.
  - cbn [tbl_rows]. by rewrite last_snoc.
  - done.
  - done.
  - intros [= Heq]. by apply Hne.
Qed.

End Handler.

Lemma existing_account_rejected_witness :
  exists w,
    run_signup mailer_returns helping_hands_again with_account =
      (w, inr (Error (js "An organization with this email account already exists"))) ∧
    statusCode (res w) = 400 ∧
    sent (res w) = None ∧
    db w = with_account.
Proof.
  apply (existing_account_rejected
           NewOrganizationRequest parse_any toLowerCase_ascii mailer_returns
           accepts_all helping_hands_again helping_hands_again with_account
           account_table the_account).
  - reflexivity.
  - vm_compute. reflexivity.
  - vm_compute. left.
  - vm_compute. reflexivity.
Defined.


(** C3 as stated fails: the body has a fresh email, so both lookups come
    back empty, but its url is that of another pending request; the engine
    refuses the row, the handler throws and no row has been added. *)
Lemma signup_with_taken_url_fails :
  let email := normalize toLowerCase_ascii (email helping_hands) in
  let out := run_signup mailer_returns helping_hands url_taken in
  parse_any helping_hands = Some helping_hands ∧
  select_where "organization_account" "email" (VText email) url_taken = Some [] ∧
  select_where "organization_request" "email" (VText email) url_taken = Some [] ∧
  out.2 = inr DatabaseError ∧
  sent (res out.1) = None ∧
  tbl_rows <$> db out.1 !! "organization_request" =
    tbl_rows <$> url_taken !! "organization_request".
Proof. vm_compute. by split_and!. Qed.

Lemma fresh_signup_stored_witness :
  exists w stored,
    run_signup mailer_throws helping_hands migrated = (w, inl tt) ∧
    res w = {| statusCode := 200; sent := Some ∅ |} ∧
    tbl_rows <$> db w !! "organization_request" = Some ([] ++ [stored]) ∧
    stored !! "email" = Some (VText (trim (toLowerCase_ascii (email helping_hands)))) ∧
    mailed w = [stored] ∧
    forall tbl, tbl ≠ "organization_request" -> db w !! tbl = migrated !! tbl.
Proof.
  apply (fresh_signup_stored
           NewOrganizationRequest parse_any toLowerCase_ascii mailer_throws
           accepts_all helping_hands helping_hands migrated
           (fresh_table organization_account_columns)
           (fresh_table organization_request_columns)).
  - reflexivity.
  - reflexivity.
  - by intros ?%Exists_nil.
  - reflexivity.
  - by intros ?%Exists_nil.
  - vm_compute. reflexivity.
Defined.

(** C4 as stated fails: the signup goes through, the stored record has its
    id and its email, and the body sent is the empty object. *)
Lemma response_body_is_not_the_record :
  let out := run_signup mailer_returns helping_hands migrated in
  out.2 = inl tt ∧
  tbl_rows <$> db out.1 !! "organization_request" = Some [first_stored] ∧
  first_stored !! "id" = Some (VInt 1) ∧
  first_stored !! "email" = Some (VText (js "info@helpers.org")) ∧
  sent (res out.1) = Some ∅ ∧
  sent (res out.1) ≠ Some first_stored.
Proof. vm_compute. by split_and!. Qed.

Lemma success_response_is_empty_witness :
  let w := (run_signup mailer_returns helping_hands migrated).1 in
  res w = {| statusCode := 200; sent := Some ∅ |} ∧
  exists stored requests',
    db w !! "organization_request" = Some requests' ∧
    last (tbl_rows requests') = Some stored ∧
    mailed w = [stored] ∧
    stored ≠ ∅ ∧
    sent (res w) ≠ Some stored.
Proof.
  apply (success_response_is_empty
           NewOrganizationRequest parse_any toLowerCase_ascii mailer_returns
           accepts_all helping_hands migrated).
  vm_compute. reflexivity.
Defined.

End ServerFacts.

(** ** The skill list, further *)

Module SkillsFacts.

Import Client JsStringFacts.

Lemma split_app_sep (a b : jstring) :
  split comma (a ++ comma :: b) = split comma a ++ split comma b.
Proof.
  induction a as [|c a IH]; [done|].
  cbn [app split]. rewrite IH.
  destruct (c =? comma)%N; [done|].
  pose proof (split_nonempty comma a). by destruct (split comma a).
Qed.

Lemma ws_not_comma (c : N) : is_ws c = true -> (c =? comma)%N = false.
Proof.
  intros Hc. destruct (N.eqb_spec c comma) as [-> | Hne]; [|done].
  by vm_compute in Hc.
Qed.

Lemma split_ws_prefix (l s : jstring) :
  Forall (fun c => is_ws c = true) l ->
  split comma (l ++ s) =
    match split comma s with
    | seg :: segs => (l ++ seg) :: segs
    | [] => [l]
    end.
Proof.
  induction 1 as [|c l Hc _ IH].
  - cbn [app]. pose proof (split_nonempty comma s).
    by destruct (split comma s).
  - cbn [app split]. rewrite (ws_not_comma c Hc), IH.
    by destruct (split comma s).
Qed.

Lemma parsedSkills_ws_prefix (l s : jstring) :
  Forall (fun c => is_ws c = true) l -> parsedSkills (l ++ s) = parsedSkills s.
Proof.
  intros Hl. unfold parsedSkills. rewrite split_ws_prefix by done.
  pose proof (split_nonempty comma s).
  destruct (split comma s) as [|seg segs]; [done|].
  rewrite !fmap_cons. unfold trim at 1 3. by rewrite trimStart_ws_app.
Qed.

Lemma parsedSkills_sep (a b : jstring) :
  parsedSkills (a ++ comma :: b) = parsedSkills a ++ parsedSkills b.
Proof.
  unfold parsedSkills. by rewrite split_app_sep, fmap_app, filter_app.
Qed.

(** What is left of a comma-free piece after trimming, if anything, is a
    clean skill. *)
Lemma trim_clean (seg : jstring) :
  comma ∉ seg -> trim seg ≠ [] -> clean_skill (trim seg).
Proof.
  intros Hfree Hne.
  destruct (trim_spec seg) as (l & r & Hseg & _ & _ & Hhd & Hlast).
  split_and!; try done.
  intros Hin. apply Hfree. rewrite Hseg.
  apply elem_of_app. right. apply elem_of_app. by left.
Qed.

Lemma clean_alone (skill : jstring) :
  clean_skill skill -> parsedSkills skill = [skill].
Proof.
  intros (Hne & Hfree & Hhd & Hlast).
  unfold parsedSkills. rewrite split_free by done. cbn [fmap list_fmap].
  assert (trim skill = skill) as ->.
  { symmetry. apply trim_unique. exists [], [].
    rewrite app_nil_r. by split_and!. }
  rewrite filter_cons, decide_True; [done|]. by destruct skill.
Qed.

Lemma trimStart_snoc (l : jstring) (c : N) :
  is_ws c = false -> trimStart (l ++ [c]) ≠ [].
Proof.
  intros Hc. induction l as [|c' l IH]; cbn [app trimStart].
  - by rewrite Hc.
  - by destruct (is_ws c').
Qed.

Lemma trim_starts (c : N) (seg : jstring) :
  is_ws c = false -> trim (c :: seg) ≠ [].
Proof.
  intros Hc. unfold trim, trimEnd. cbn [trimStart]. rewrite Hc.
  rewrite reverse_cons. intros Hnil.
  apply (f_equal reverse) in Hnil. rewrite reverse_involutive in Hnil.
  by apply (trimStart_snoc (reverse seg) c Hc).
Qed.

(** X1. The skill list of two strings joined by a comma is the skill list
    of the first followed by that of the second: every comma separates,
    wherever it stands. *)
Theorem parsedSkills_of_comma_joined (a b : jstring) :
  parsedSkills (a ++ js "," ++ b) = parsedSkills a ++ parsedSkills b.
Proof.
  change (js ",") with [comma]. cbn [app].
  unfold parsedSkills.
  rewrite split_app_sep. rewrite fmap_app. apply filter_app.
Qed.

(** X2. Every entry of a parsed skill list is a clean skill: it is not
    empty, holds no comma, and neither starts nor ends with whitespace. *)
Theorem parsedSkills_entries_clean (s : jstring) :
  Forall clean_skill (parsedSkills s).
Proof.
  apply Forall_forall. intros skill Hin.
  unfold parsedSkills in Hin.
  apply list_elem_of_filter in Hin as [Htruthy Hin].
  apply list_elem_of_fmap in Hin as (seg & -> & Hseg).
  destruct (split_spec s) as (_ & Hfree & _).
  rewrite Forall_forall in Hfree.
  apply trim_clean; [by apply Hfree|].
  intros Hnil. by rewrite Hnil in Htruthy.
Qed.

(** X3. The parsed skill list is empty exactly when the string holds
    nothing but commas and whitespace (the empty string included). *)
Theorem parsedSkills_empty_iff (s : jstring) :
  parsedSkills s = [] <-> Forall (fun c => c = comma ∨ is_ws c = true) s.
Proof.
  induction s as [|c s IH].
  - split; [constructor | done].
  - destruct (N.eqb_spec c comma) as [-> | Hne].
    + change (comma :: s) with ([] ++ comma :: s).
      rewrite parsedSkills_sep. change (parsedSkills []) with (@nil jstring).
      cbn [app]. rewrite IH. split.
      * intros Hs. constructor; [by left | done].
      * by intros [_ Hs]%Forall_cons.
    + destruct (is_ws c) eqn:Hc.
      * change (c :: s) with ([c] ++ s).
        rewrite parsedSkills_ws_prefix by (constructor; [done | constructor]).
        rewrite IH. split.
        -- intros Hs. constructor; [by right | done].
        -- by intros [_ Hs]%Forall_cons.
      * split.
        -- intros Hnil. exfalso. revert Hnil. unfold parsedSkills.
           cbn [split]. apply N.eqb_neq in Hne. rewrite Hne.
           pose proof (split_nonempty comma s).
           destruct (split comma s) as [|seg segs]; [done|].
           rewrite fmap_cons, filter_cons, decide_True; [done|].
           pose proof (trim_starts c seg Hc). by destruct (trim (c :: seg)).
        -- intros [[? | ?] _]%Forall_cons; [done | congruence].
Qed.

(** X4. Joining clean skills with ", ", as the form is seeded, and
    parsing the result, as a save does, gives the skills back. *)
Theorem parsedSkills_of_joined (skills : list jstring) :
  Forall clean_skill skills ->
  parsedSkills (join (js ", ") skills) = skills.
Proof.
  induction 1 as [|skill skills Hskill Hskills IH]; [done|].
  destruct skills as [|skill' skills'].
  - by apply clean_alone.
  - rewrite join_cons by done.
    change (js ", ") with (comma :: [32%N]). cbn [app].
    rewrite parsedSkills_sep, clean_alone by done.
    change (32%N :: join (comma :: [32%N]) (skill' :: skills'))
      with ([32%N] ++ join (js ", ") (skill' :: skills')).
    rewrite parsedSkills_ws_prefix by (by repeat constructor).
    by rewrite IH.
Qed.

Lemma parsedSkills_of_joined_witness :
  parsedSkills (join (js ", ") [js "Teaching"; js "First Aid"]) =
    [js "Teaching"; js "First Aid"].
Proof.
  apply (parsedSkills_of_joined [js "Teaching"; js "First Aid"]).
  constructor; [|constructor; [|constructor]].
  all: split_and!.
  all: try (intros H; by vm_compute in H).
  all: try (intros H%list_elem_of_In; vm_compute in H; intuition discriminate).
  all: intros c H; vm_compute in H; injection H as <-; reflexivity.
Defined.

End SkillsFacts.

(** ** Name, initials and badges *)

Module NameFacts.

Import Client JsStringFacts.

#[local] Abbreviation words s :=
  (filter (fun part : jstring => truthy part = true) (split_spaces s)).

Lemma split_spaces_nonempty (s : jstring) : split_spaces s ≠ [].
Proof.
  induction s as [|c s IH]; [done|]. cbn [split_spaces].
  destruct (is_ws c).
  - destruct s as [|c' s']; [done|]. by destruct (is_ws c').
  - by destruct (split_spaces s).
Qed.

(** A string that starts with whitespace has an empty first piece. *)
Lemma split_spaces_ws_head (c : N) (s : jstring) :
  is_ws c = true -> hd [] (split_spaces (c :: s)) = [].
Proof.
  revert c. induction s as [|c' s IH]; intros c Hc.
  - cbn. by rewrite Hc.
  - cbn [split_spaces]. rewrite Hc.
    destruct (is_ws c') eqn:Hc'; [|done].
    specialize (IH c' Hc'). cbn [split_spaces] in IH. by rewrite Hc' in IH.
Qed.

Lemma words_unfold (s : jstring) :
  words s =
    (if truthy (hd [] (split_spaces s)) then [hd [] (split_spaces s)] else [])
    ++ filter (fun part : jstring => truthy part = true) (tl (split_spaces s)).
Proof.
  pose proof (split_spaces_nonempty s).
  destruct (split_spaces s) as [|seg segs]; [done|].
  cbn [hd tl]. rewrite filter_cons. by destruct seg.
Qed.

Lemma words_ws_cons (c : N) (s : jstring) :
  is_ws c = true -> words (c :: s) = words s.
Proof.
  intros Hc. cbn [split_spaces]. rewrite Hc.
  destruct s as [|c' s'].
  - done.
  - destruct (is_ws c'); [done|]. by rewrite filter_cons.
Qed.

Lemma words_ws_prefix (l s : jstring) :
  Forall (fun c => is_ws c = true) l -> words (l ++ s) = words s.
Proof.
  induction 1 as [|c l Hc _ IH]; [done|].
  cbn [app]. by rewrite words_ws_cons.
Qed.

(** Across a run of whitespace: the first piece is that of the left
    part, and the later pieces are those of the left part followed by the
    words of the right part. *)
Lemma split_spaces_across (a w b : jstring) :
  w ≠ [] -> Forall (fun c => is_ws c = true) w ->
  hd [] (split_spaces (a ++ w ++ b)) = hd [] (split_spaces a) ∧
  filter (fun part : jstring => truthy part = true)
         (tl (split_spaces (a ++ w ++ b))) =
    filter (fun part : jstring => truthy part = true) (tl (split_spaces a))
    ++ words b.
Proof.
  intros Hne Hw. induction a as [|c a [IHhd IHtl]].
  - destruct w as [|c0 w]; [done|]. apply Forall_cons in Hw as [Hc0 Hw].
    cbn [app]. split.
    + by apply split_spaces_ws_head.
    + pose proof (words_unfold (c0 :: w ++ b)) as Hu.
      rewrite (split_spaces_ws_head c0 (w ++ b) Hc0) in Hu. cbn [truthy app] in Hu.
      rewrite <- Hu, words_ws_cons by done. by rewrite words_ws_prefix.
  - cbn [app]. destruct (is_ws c) eqn:Hc.
    + split; [by rewrite !split_spaces_ws_head|].
      pose proof (words_unfold (c :: a ++ w ++ b)) as Hu.
      rewrite (split_spaces_ws_head c _ Hc) in Hu. cbn [truthy app] in Hu.
      pose proof (words_unfold (c :: a)) as Hu'.
      rewrite (split_spaces_ws_head c _ Hc) in Hu'. cbn [truthy app] in Hu'.
      rewrite <- Hu, <- Hu', !words_ws_cons by done.
      by rewrite (words_unfold (a ++ w ++ b)), (words_unfold a), IHhd, IHtl,
        app_assoc.
    + cbn [split_spaces]. rewrite Hc.
      pose proof (split_spaces_nonempty (a ++ w ++ b)).
      pose proof (split_spaces_nonempty a).
      destruct (split_spaces (a ++ w ++ b)) as [|seg segs]; [done|].
      destruct (split_spaces a) as [|seg' segs']; [done|].
      cbn [hd tl] in *. by subst.
Qed.

Lemma words_across (a w b : jstring) :
  w ≠ [] -> Forall (fun c => is_ws c = true) w ->
  words (a ++ w ++ b) = words a ++ words b.
Proof.
  intros Hne Hw. destruct (split_spaces_across a w b Hne Hw) as [Hhd Htl].
  by rewrite (words_unfold (a ++ w ++ b)), (words_unfold a), Hhd, Htl, app_assoc.
Qed.

Lemma words_trim (s : jstring) : words (trim s) = words s.
Proof.
  destruct (trim_spec s) as (l & r & Hs & Hl & Hr & _).
  rewrite Hs at 2. rewrite words_ws_prefix by done.
  destruct r as [|c r]; [by rewrite app_nil_r|].
  rewrite <- (app_nil_r (c :: r)) at 1. by rewrite words_across, app_nil_r.
Qed.

Lemma nameParts_words (s : jstring) : nameParts s = words s.
Proof. apply words_trim. Qed.

Lemma words_blank (l : jstring) :
  Forall (fun c => is_ws c = true) l -> words l = [].
Proof.
  intros Hl. rewrite <- (app_nil_r l). by rewrite words_ws_prefix.
Qed.

Lemma split_spaces_pieces (s : jstring) :
  Forall (Forall (fun c => is_ws c = false)) (split_spaces s).
Proof.
  induction s as [|c s IH]; [by repeat constructor|].
  cbn [split_spaces]. destruct (is_ws c) eqn:Hc.
  - destruct s as [|c' s']; [by repeat constructor|].
    destruct (is_ws c'); [done | by constructor].
  - destruct (split_spaces s) as [|seg segs]; [by repeat constructor|].
    apply Forall_cons in IH as [Hseg Hsegs]. by repeat constructor.
Qed.

Lemma nameParts_of_profile (p : VolunteerProfileResponse) :
  nameParts (volunteerName (Some p)) =
    nameParts (v_first_name (volunteer p)) ++
    nameParts (v_last_name (volunteer p)).
Proof.
  cbn [volunteerName]. rewrite !nameParts_words, words_trim.
  apply words_across; [done | by repeat constructor].
Qed.

(** X5. The parts of a name with a run of whitespace inside are the
    parts of what is left of the run followed by the parts of what is
    right of it: any run separates, however long, and none leaves an
    empty part. *)
Theorem nameParts_across_whitespace (a w b : jstring) :
  w ≠ [] -> Forall (fun c => is_ws c = true) w ->
  nameParts (a ++ w ++ b) = nameParts a ++ nameParts b.
Proof.
  intros Hne Hw. rewrite !nameParts_words.
  destruct (split_spaces_across a w b Hne Hw) as [Hhd Htl].
  rewrite (words_unfold (a ++ w ++ b)), (words_unfold a), Hhd, Htl.
  by rewrite app_assoc.
Qed.

Lemma nameParts_across_whitespace_witness :
  nameParts (js "Mary" ++ [9; 32; 160]%N ++ js "Ann ") =
    nameParts (js "Mary") ++ nameParts (js "Ann ").
Proof.
  apply (nameParts_across_whitespace (js "Mary") [9; 32; 160]%N (js "Ann ")).
  - done.
  - by repeat constructor.
Defined.

(** X6. Every part of a name is a word: it is not empty and holds no
    whitespace. *)
Theorem nameParts_are_words (name : jstring) :
  Forall (fun part => part ≠ [] ∧ Forall (fun c => is_ws c = false) part)
         (nameParts name).
Proof.
  apply Forall_forall. intros part Hin. unfold nameParts in Hin.
  apply list_elem_of_filter in Hin as [Htruthy Hin].
  split; [by destruct part|].
  pose proof (split_spaces_pieces (trim name)) as Hpieces.
  rewrite Forall_forall in Hpieces. by apply Hpieces.
Qed.

(** X7. The initials of a profile are the upper-cased first code units of
    the first two words of the first name followed by the last name. *)
Theorem initials_of_profile (toUpperCase : jstring -> jstring)
    (p : VolunteerProfileResponse) :
  initials toUpperCase (volunteerName (Some p)) =
    join (js "")
         ((fun part => toUpperCase (charAt part 0)) <$>
            take 2 (nameParts (v_first_name (volunteer p)) ++
                    nameParts (v_last_name (volunteer p)))).
Proof.
  unfold initials. do 3 f_equal.
  cbn [volunteerName]. rewrite !nameParts_words, words_trim.
  apply words_across; [done|]. constructor; [reflexivity | constructor].
Qed.

(** X8. When the first name has two words or more, the last name does
    not show in the initials. *)
Theorem initials_ignore_last_name (toUpperCase : jstring -> jstring)
    (p : VolunteerProfileResponse) :
  (2 <= length (nameParts (v_first_name (volunteer p))))%nat ->
  initials toUpperCase (volunteerName (Some p)) =
    initials toUpperCase (v_first_name (volunteer p)).
Proof.
  intros Hlen. unfold initials. do 2 f_equal.
  rewrite nameParts_of_profile. by apply take_app_le.
Qed.

Lemma initials_ignore_last_name_witness :
  initials toUpperCase_letters
           (volunteerName (Some (named (js "mary ann") (js "smith")))) =
    js "MA".
Proof.
  rewrite (initials_ignore_last_name toUpperCase_letters
             (named (js "mary ann") (js "smith"))).
  - reflexivity.
  - vm_compute. lia.
Defined.

(** X9. A profile whose first and last name are blank has no initials,
    and the avatar shows 'V'. *)
Theorem avatar_of_blank_name (toUpperCase : jstring -> jstring)
    (p : VolunteerProfileResponse) :
  Forall (fun c => is_ws c = true) (v_first_name (volunteer p)) ->
  Forall (fun c => is_ws c = true) (v_last_name (volunteer p)) ->
  initials toUpperCase (volunteerName (Some p)) = js "" ∧
  avatarText toUpperCase (volunteerName (Some p)) = js "V".
Proof.
  intros Hfirst Hlast.
  assert (initials toUpperCase (volunteerName (Some p)) = js "") as Hnone.
  { unfold initials. rewrite nameParts_of_profile, !nameParts_words.
    by rewrite !words_blank. }
  split; [done|]. unfold avatarText. by rewrite Hnone.
Qed.

Lemma avatar_of_blank_name_witness :
  initials toUpperCase_letters (volunteerName (Some (named (js "  ") (js "")))) = js "" ∧
  avatarText toUpperCase_letters (volunteerName (Some (named (js "  ") (js "")))) = js "V".
Proof.
  apply (avatar_of_blank_name toUpperCase_letters (named (js "  ") (js ""))).
  - by repeat constructor.
  - constructor.
Defined.

Lemma imap_badges {A} (f : nat -> option jstring) (l : list A) :
  (imap (fun index skill => (skill, f index)) l).*1 = l ∧
  ((forall index, exists style, f index = Some style ∧ style ∈ SKILL_BADGE_STYLES) ->
   Forall (fun item : A * option jstring =>
             exists style, item.2 = Some style ∧ style ∈ SKILL_BADGE_STYLES)
          (imap (fun index skill => (skill, f index)) l)).
Proof.
  revert f. induction l as [|x l IH]; intros f; [by split|].
  cbn [imap fmap list_fmap]. destruct (IH (f ∘ S)) as [IHfst IHall].
  split.
  - cbn. f_equal. exact IHfst.
  - intros Hf. constructor; [apply Hf|]. apply IHall. intros index. apply Hf.
Qed.

(** X10. Every index has a badge style, one of the four, and the styles
    repeat with period four; hence the skills block shows the placeholder
    exactly for the empty list, and otherwise one badge per skill, in
    order, each with a style. *)
Theorem renderSkills_badges (parsed : list jstring) :
  (forall index,
     (exists style, skillBadgeStyle index = Some style ∧
                    style ∈ SKILL_BADGE_STYLES) ∧
     skillBadgeStyle (index + 4) = skillBadgeStyle index) ∧
  match renderSkills parsed with
  | NoSkillsYet => parsed = []
  | Badges items =>
      parsed ≠ [] ∧ items.*1 = parsed ∧
      Forall (fun item : jstring * option jstring =>
                exists style, item.2 = Some style ∧ style ∈ SKILL_BADGE_STYLES)
             items
  end.
Proof.
  assert (forall index, exists style,
            skillBadgeStyle index = Some style ∧ style ∈ SKILL_BADGE_STYLES)
    as Hstyle.
  { intros index. unfold skillBadgeStyle.
    destruct (lookup_lt_is_Some_2 SKILL_BADGE_STYLES
                (index mod length SKILL_BADGE_STYLES)%nat) as [style Hs].
    { apply Nat.mod_upper_bound. done. }
    exists style. split; [done|]. by eapply list_elem_of_lookup_2. }
  split.
  - intros index. split; [apply Hstyle|].
    unfold skillBadgeStyle. f_equal.
    change (length SKILL_BADGE_STYLES) with 4%nat.
    exact (Nat.Div0.mod_add index 1 4).
  - unfold renderSkills. destruct parsed as [|skill parsed]; [done|].
    cbn [length Nat.ltb Nat.leb].
    destruct (imap_badges skillBadgeStyle (skill :: parsed)) as [Hfst Hall].
    split_and!; [done | exact Hfst | by apply Hall].
Qed.

End NameFacts.

(** ** The profile page, further *)

Module PageMoreFacts.

Import Client JsStringFacts PageFacts.

Lemma typed_description_bounded (value : jstring) :
  jlength (slice value 0 DESCRIPTION_MAX_LENGTH) <= DESCRIPTION_MAX_LENGTH.
Proof.
  unfold DESCRIPTION_MAX_LENGTH, jlength. rewrite slice_prefix by lia.
  rewrite length_take. lia.
Qed.

Ltac close_tidy :=
  cbn in *; simplify_eq;
  split_and!;
  first
    [ done
    | by left
    | by right
    | by eauto using typed_description_bounded
    | by left; apply typed_description_bounded
    | by right; eauto
    | intros; simplify_eq; by eauto
    | match goal with H : _ -> _ ∧ _ |- _ => by destruct H end
    | match goal with
      | H : true = true -> _ ∧ _ |- _ =>
          destruct (H eq_refl); subst; first [by left | by right]
      end
    | match goal with
      | H : context [bool_decide (?x ∈ unavailableFields ?p)] |- _ =>
          intros ? [= <-] Hin; rewrite bool_decide_eq_true_2 in H by done;
          done
      end ].

Lemma step_tidy (e : Event) (sys sys' : System) :
  coherent sys -> tidy sys -> step e sys = Some sys' -> tidy sys'.
Proof.
  destruct sys as [[pr fm ld sv fe se sm em] fl].
  unfold coherent, tidy. cbn.
  intros (Hfl & Hview & Hedit & Hfe & Hpriv) (Hex & Hve & Hsv & Hdesc & Hcv) Hstep.
  destruct e as [ev | i r]; cbn in Hstep.
  - destruct (enabled ev _) eqn:Hen; [|done]. injection Hstep as <-.
    destruct ld, sv, em, pr as [p|];
      destruct Hfl as [(-> & ? & ?)
                      | [(-> & ? & ? & ? & ? & ?) | ((b & ->) & ? & ? & ?)]];
      try done.
    all: destruct ev; cbn in Hen; unfold is_page, view in Hen; cbn in Hen;
      try done.
    all: destruct (truthy_opt fe) eqn:Hfet; try done.
    all: unfold handle, onSave_begin; cbn.
    all: close_tidy.
  - destruct (fl !! i) as [req|] eqn:Hreq; [|done].
    destruct ld, sv, em, pr as [p|];
      destruct Hfl as [(-> & ? & ?)
                      | [(-> & ? & ? & ? & ? & ?) | ((b & ->) & ? & ? & ?)]];
      try done.
    all: destruct i as [|i]; try done; cbn in Hreq; simplify_eq.
    all: destruct r as [response | error]; cbn.
    all: close_tidy.
Qed.


Lemma mounted_tidy : tidy mounted.
Proof. unfold tidy. cbn. split_and!; try done; by left. Qed.

Lemma run_sound (es : list Event) (sys sys' : System) :
  coherent sys -> tidy sys -> run es sys = Some sys' ->
  coherent sys' ∧ tidy sys'.
Proof.
  revert sys. induction es as [|e es IH]; intros sys Hc Ht Hrun.
  - by injection Hrun as <-.
  - cbn in Hrun. destruct (step e sys) as [sys1|] eqn:Hstep; [|done].
    eauto using step_coherent, step_tidy.
Qed.

Lemma reachable_tidy (sys : System) : reachable sys -> tidy sys.
Proof.
  intros [es Hrun].
  by destruct (run_sound es mounted sys mounted_coherent mounted_tidy Hrun).
Qed.



(** X12. In every state the page reaches, the description in the form
    has at most 300 code units unless it is the description of the loaded
    profile as the server sent it, which is never cut. *)
Theorem form_description_bounded_or_seeded (sys : System) :
  reachable sys ->
  jlength (f_description (form (st sys))) <= DESCRIPTION_MAX_LENGTH ∨
  exists p, profile (st sys) = Some p ∧
            f_description (form (st sys)) =
              nullish (v_description (volunteer p)) (js "").
Proof.
  intros Hreach.
  destruct (reachable_tidy sys Hreach) as (_ & _ & _ & Hdesc & _).
  destruct Hdesc as [Hshort | Hseeded]; [by left | by right].
Qed.

Lemma form_description_bounded_or_seeded_witness :
  jlength (f_description (form (st sample_editing))) <= DESCRIPTION_MAX_LENGTH ∨
  exists p, profile (st sample_editing) = Some p ∧
            f_description (form (st sample_editing)) =
              nullish (v_description (volunteer p)) (js "").
Proof.
  apply (form_description_bounded_or_seeded sample_editing).
  exists [Settle 0 (Fulfilled sample_profile); User ClickEdit]. reflexivity.
Defined.

(** X13. In every state the page reaches with a profile that lists 'cv'
    among its unavailable fields, the CV control cannot be typed into and
    the CV in the form is the one seeded from the profile. *)
Theorem unavailable_cv_stays_seeded (sys : System) (p : VolunteerProfileResponse) :
  reachable sys ->
  profile (st sys) = Some p ->
  js "cv" ∈ unavailableFields p ->
  f_cv (form (st sys)) = nullish (cv p) (js "") ∧
  forall value, enabled (TypeCv value) (st sys) = false.
Proof.
  intros Hreach Hp Hcv.
  destruct (reachable_tidy sys Hreach) as (_ & _ & _ & _ & Hseeded).
  split; [by apply Hseeded|].
  intros value. cbn [enabled]. unfold unavailableCv. rewrite Hp.
  rewrite bool_decide_eq_true_2 by done.
  by rewrite orb_true_r, andb_false_r.
Qed.

Lemma unavailable_cv_stays_seeded_witness :
  f_cv (form (st sample_editing_no_cv)) = nullish (cv sample_profile_no_cv) (js "") ∧
  forall value, enabled (TypeCv value) (st sample_editing_no_cv) = false.
Proof.
  apply (unavailable_cv_stays_seeded sample_editing_no_cv sample_profile_no_cv).
  - exists [Settle 0 (Fulfilled sample_profile_no_cv); User ClickEdit].
    reflexivity.
  - reflexivity.
  - left.
Defined.

(** X14. When a load fails with an error whose message is the empty
    string, the page shows 'Profile not found.' and nothing can happen
    any more: no control is enabled, Retry included, and no request is in
    flight. *)
Theorem load_failure_without_message_is_final (sys : System) (error : thrown) :
  reachable sys ->
  inflight sys = [GetProfile] ->
  messageOf error (js "Failed to load profile") = js "" ->
  exists sys',
    step (Settle 0 (Rejected error)) sys = Some sys' ∧
    view (st sys') = VNotFound ∧
    forall e, step e sys' = None.
Proof.
  intros Hreach Hfl Hmsg.
  pose proof (reachable_coherent sys Hreach) as (Hflight & _).
  destruct sys as [[pr fm ld sv fe se sm em] fl]. cbn in *. subst fl.
  destruct Hflight as [(? & _) | [(_ & -> & -> & -> & -> & ->) | ((b & ?) & _)]];
    [done | | done].
  eexists. split; [reflexivity|]. cbn. rewrite Hmsg.
  split; [reflexivity|].
  intros [ev | i r]; [|done].
  cbn [step st]. by destruct ev.
Qed.

Lemma load_failure_without_message_is_final_witness :
  exists sys',
    step (Settle 0 (Rejected (ErrorObject (js "")))) mounted = Some sys' ∧
    view (st sys') = VNotFound ∧
    forall e, step e sys' = None.
Proof.
  apply (load_failure_without_message_is_final mounted (ErrorObject (js ""))).
  - exists []. reflexivity.
  - reflexivity.
  - reflexivity.
Defined.

(** X15. A save that succeeds makes the answer the profile, seeds the
    form from it, leaves edit mode, sets the success banner and no error;
    nothing is in flight and the one control left enabled is Edit
    Profile. *)
Theorem successful_save_commits (sys : System) (response : VolunteerProfileResponse) :
  reachable sys ->
  enabled ClickSave (st sys) = true ->
  exists sys1 sys2,
    step (User ClickSave) sys = Some sys1 ∧
    step (Settle 0 (Fulfilled response)) sys1 = Some sys2 ∧
    st sys2 =
      {| profile := Some response; form := getDefaultFormState response;
         loading := false; saving := false;
         fetchError := None; saveError := None;
         saveMessage := Some (js "Profile changes saved.");
         isEditMode := false |} ∧
    inflight sys2 = [] ∧
    forall ev, enabled ev (st sys2) = true <-> ev = ClickEdit.
Proof.
  intros Hreach Hen.
  pose proof (reachable_coherent sys Hreach) as (Hfl & _ & _ & Hfe & _).
  destruct sys as [[pr fm ld sv fe se sm em] fl]. cbn in *.
  unfold is_page, view in Hen. cbn in Hen.
  destruct ld; [done|]. destruct (truthy_opt fe) eqn:Hfet; [done|].
  destruct pr as [p|]; [|done]. destruct em; [|done]. destruct sv; [done|].
  destruct Hfl as [(-> & _) | [(_ & ? & _) | (_ & _ & ? & _)]]; try done.
  rewrite Hfe in * by eauto.
  eexists _, _. unfold is_page, view. cbn.
  split_and!; try reflexivity.
  intros ev. destruct ev; cbn; unfold is_page, view; cbn; split; done.
Qed.

Lemma successful_save_commits_witness :
  exists sys1 sys2,
    step (User ClickSave) sample_editing = Some sys1 ∧
    step (Settle 0 (Fulfilled sample_profile_no_cv)) sys1 = Some sys2 ∧
    st sys2 =
      {| profile := Some sample_profile_no_cv;
         form := getDefaultFormState sample_profile_no_cv;
         loading := false; saving := false;
         fetchError := None; saveError := None;
         saveMessage := Some (js "Profile changes saved.");
         isEditMode := false |} ∧
    inflight sys2 = [] ∧
    forall ev, enabled ev (st sys2) = true <-> ev = ClickEdit.
Proof.
  apply (successful_save_commits sample_editing sample_profile_no_cv).
  - exists [Settle 0 (Fulfilled sample_profile); User ClickEdit]. reflexivity.
  - reflexivity.
Defined.

(** X16. The request a click on Save issues carries the description and
    the privacy of the form, the parsed skills, and the CV or null: its
    privacy is 'public' or 'private', and its CV is never the empty
    string, being null exactly when the CV field is empty. *)
Theorem save_request_well_formed (sys sys1 : System) :
  reachable sys ->
  step (User ClickSave) sys = Some sys1 ->
  exists body,
    inflight sys1 = [PutProfile body] ∧
    b_description body = f_description (form (st sys)) ∧
    b_skills body = parsedSkills (f_skills (form (st sys))) ∧
    (b_privacy body = js "public" ∨ b_privacy body = js "private") ∧
    b_cv body ≠ Some (js "") ∧
    (b_cv body = None <-> f_cv (form (st sys)) = js "").
Proof.
  intros Hreach Hstep.
  pose proof (reachable_coherent sys Hreach) as (Hfl & _ & _ & _ & Hpriv).
  cbn [step] in Hstep.
  destruct (enabled ClickSave (st sys)) eqn:Hen; [|done].
  injection Hstep as <-.
  destruct sys as [[pr fm ld sv fe se sm em] fl]. cbn in *.
  unfold is_page, view in Hen. cbn in Hen.
  destruct ld; [done|]. destruct (truthy_opt fe); [done|].
  destruct pr as [p|]; [|done]. destruct em; [|done]. destruct sv; [done|].
  destruct Hfl as [(-> & _) | [(_ & ? & _) | (_ & _ & ? & _)]]; try done.
  eexists. cbn. split; [reflexivity|]. cbn.
  split_and!; try done.
  - unfold or_null. by destruct (f_cv fm).
  - unfold or_null. by destruct (f_cv fm).
Qed.

Lemma save_request_well_formed_witness :
  exists body,
    inflight (handle ClickSave sample_editing) = [PutProfile body] ∧
    b_description body = f_description (form (st sample_editing)) ∧
    b_skills body = parsedSkills (f_skills (form (st sample_editing))) ∧
    (b_privacy body = js "public" ∨ b_privacy body = js "private") ∧
    b_cv body ≠ Some (js "") ∧
    (b_cv body = None <-> f_cv (form (st sample_editing)) = js "").
Proof.
  apply (save_request_well_formed sample_editing (handle ClickSave sample_editing)).
  - exists [Settle 0 (Fulfilled sample_profile); User ClickEdit]. reflexivity.
  - reflexivity.
Defined.

(** X17. A load that fails with a message, followed by Retry and a load
    that succeeds, leaves the page exactly as the successful load alone
    would have. *)
Theorem retry_recovers (sys : System) (error : thrown)
    (p : VolunteerProfileResponse) :
  reachable sys ->
  inflight sys = [GetProfile] ->
  truthy (messageOf error (js "Failed to load profile")) = true ->
  exists sys',
    run [Settle 0 (Fulfilled p)] sys = Some sys' ∧
    run [Settle 0 (Rejected error); User ClickRetry; Settle 0 (Fulfilled p)] sys
      = Some sys' ∧
    view (st sys') = VPage.
Proof.
  intros Hreach Hfl Hmsg.
  pose proof (reachable_coherent sys Hreach) as (Hflight & _).
  destruct sys as [[pr fm ld sv fe se sm em] fl]. cbn in *. subst fl.
  destruct Hflight as [(? & _) | [(_ & -> & -> & -> & -> & ->) | ((b & ?) & _)]];
    [done | | done].
  eexists. split; [reflexivity|].
  cbn. unfold view. cbn. rewrite Hmsg. cbn. done.
Qed.

Lemma retry_recovers_witness :
  exists sys',
    run [Settle 0 (Fulfilled sample_profile)] mounted = Some sys' ∧
    run [Settle 0 (Rejected NotAnError); User ClickRetry;
         Settle 0 (Fulfilled sample_profile)] mounted = Some sys' ∧
    view (st sys') = VPage.
Proof.
  apply (retry_recovers mounted NotAnError sample_profile).
  - exists []. reflexivity.
  - reflexivity.
  - reflexivity.
Defined.

Lemma parsed_joined (skills : list jstring) :
  parsedSkills (join (js ", ") skills) = concat (parsedSkills <$> skills).
Proof.
  induction skills as [|skill skills IH]; [done|].
  destruct skills as [|skill' skills'].
  - cbn. by rewrite app_nil_r.
  - rewrite JsStringFacts.join_cons by done.
    change (js ", ") with (comma :: [32%N]). cbn [app].
    rewrite SkillsFacts.parsedSkills_sep.
    change (32%N :: join (comma :: [32%N]) (skill' :: skills'))
      with ([32%N] ++ join (js ", ") (skill' :: skills')).
    rewrite SkillsFacts.parsedSkills_ws_prefix by (by repeat constructor).
    by rewrite IH.
Qed.

(** X18. Edit Profile followed at once by Save submits the profile as
    the server gave it, provided its skills are clean and its CV is not
    the empty string: the same skills, the same CV, the description or
    the empty string, and the privacy as the form coerces it. *)
Theorem unedited_save_resubmits_profile (sys : System)
    (p : VolunteerProfileResponse) :
  reachable sys ->
  profile (st sys) = Some p ->
  enabled ClickEdit (st sys) = true ->
  Forall clean_skill (skills p) ->
  cv p ≠ Some (js "") ->
  exists sys2,
    run [User ClickEdit; User ClickSave] sys = Some sys2 ∧
    inflight sys2 =
      [PutProfile
         {| b_description := nullish (v_description (volunteer p)) (js "");
            b_skills := skills p;
            b_cv := cv p;
            b_privacy := f_privacy (getDefaultFormState p) |}].
Proof.
  intros Hreach Hp Hen Hclean Hcv.
  pose proof (reachable_coherent sys Hreach) as (Hfl & Hview & _ & Hfe & _).
  destruct sys as [[pr fm ld sv fe se sm em] fl]. cbn in *. subst pr.
  rewrite Hfe in * by eauto. clear Hfe.
  unfold is_page, view in Hen. cbn in Hen.
  destruct ld; [done|]. destruct em; [done|].
  destruct Hfl as [(-> & _ & ->) | [(_ & ? & _) | (_ & _ & _ & ?)]]; try done.
  rewrite (Hview eq_refl p eq_refl).
  eexists. unfold is_page, view. cbn.
  split; [reflexivity|]. cbn. do 2 f_equal.
  unfold getDefaultFormState. cbn [f_description f_skills f_cv f_privacy].
  f_equal.
  - rewrite parsed_joined. clear -Hclean.
    induction Hclean as [|skill skills Hskill _ IH]; [done|].
    cbn. by rewrite SkillsFacts.clean_alone, IH.
  - unfold or_null, nullish. destruct (cv p) as [[|c link]|]; done.
Qed.

Lemma unedited_save_resubmits_profile_witness :
  exists sys2,
    run [User ClickEdit; User ClickSave] sample_viewing = Some sys2 ∧
    inflight sys2 =
      [PutProfile
         {| b_description := nullish (v_description (volunteer sample_profile)) (js "");
            b_skills := skills sample_profile;
            b_cv := cv sample_profile;
            b_privacy := f_privacy (getDefaultFormState sample_profile) |}].
Proof.
  apply (unedited_save_resubmits_profile sample_viewing sample_profile).
  - exists [Settle 0 (Fulfilled sample_profile)]. reflexivity.
  - reflexivity.
  - reflexivity.
  - constructor; [|constructor; [|constructor]].
    all: split_and!.
    all: try (intros H; by vm_compute in H).
    all: try (intros H%list_elem_of_In; vm_compute in H; intuition discriminate).
    all: intros c H; vm_compute in H; injection H as <-; reflexivity.
  - done.
Defined.

(** X19. Two updates of the same field leave the later value; updates of
    different fields can be made in either order; and no update touches
    the profile or the mode. *)
Theorem updateForm_composes (field field' : Field) (value value' : jstring)
    (s : State) :
  (if decide (field = field')
   then updateForm field value (updateForm field' value' s) =
          updateForm field value s
   else updateForm field value (updateForm field' value' s) =
          updateForm field' value' (updateForm field value s)) ∧
  profile (updateForm field value s) = profile s ∧
  isEditMode (updateForm field value s) = isEditMode s ∧
  saving (updateForm field value s) = saving s.
Proof.
  split; [|done].
  destruct field, field'; by case_decide.
Qed.

End PageMoreFacts.

(** ** The signup endpoint, further *)

Module ServerMoreFacts.

Import Database Server ServerFacts.

Section Handler.

Variable RequestBody : Type.
Variable parse : RequestBody -> option NewOrganizationRequest.
Variable toLowerCase : jstring -> jstring.
Variable sendAdminOrganizationRequestEmail : row -> option exception.
Variable type_accepts : col_type -> value -> bool.

#[local] Abbreviation handler :=
  (post_request RequestBody parse toLowerCase
                sendAdminOrganizationRequestEmail type_accepts).
#[local] Abbreviation norm := (normalize toLowerCase).
#[local] Abbreviation account_exists :=
  (js "An organization with this email account already exists").
#[local] Abbreviation already_pending :=
  (js "A request with this email is already pending").

(** Every run of the handler, by what it finds. *)
Lemma post_request_outcomes (req_body : RequestBody) (d : database) :
  handler req_body (incoming d) =
    match parse req_body with
    | None => (incoming d, inr ZodError)
    | Some body =>
        match d !! "organization_account" with
        | None => (incoming d, inr DatabaseError)
        | Some accounts =>
            if decide (Exists (has_email (norm (email body))) (tbl_rows accounts))
            then (rejected_world d, inr (Error account_exists))
            else
              match d !! "organization_request" with
              | None => (incoming d, inr DatabaseError)
              | Some requests =>
                  if decide (Exists (has_email (norm (email body)))
                                    (tbl_rows requests))
                  then (rejected_world d, inr (Error already_pending))
                  else if row_accepted type_accepts requests
                            (stored_row toLowerCase requests body)
                  then (accepted_world toLowerCase
                          sendAdminOrganizationRequestEmail d requests body,
                        inl tt)
                  else (refused_world toLowerCase d requests body,
                        inr DatabaseError)
              end
        end
    end.
Proof.
  destruct (parse req_body) as [body|] eqn:Hparse.
  2:{ unfold post_request, bind, schema_parse. by rewrite Hparse. }
  destruct (d !! "organization_account") as [accounts|] eqn:Hacc.
  2:{ unfold post_request, bind, schema_parse. rewrite Hparse.
      unfold ret, select_first, select_where. cbn [incoming db].
      by rewrite Hacc. }
  destruct (d !! "organization_request") as [requests|] eqn:Hreq.
  { by apply post_request_cases. }
  unfold post_request, bind, schema_parse. rewrite Hparse.
  unfold ret, select_first, select_where. cbn [incoming db]. rewrite Hacc.
  cbn [mbind option_bind].
  destruct (decide (Exists _ (tbl_rows accounts))) as [Hex | Hnex].
  { rewrite bool_decide_eq_true_2 by by apply first_filtered. done. }
  rewrite bool_decide_eq_false_2 by by rewrite first_filtered.
  cbn [incoming db]. by rewrite Hreq.
Qed.

(** X20. Whatever the request and the database, the handler either
    returns having sent [{}] with status 200, or throws having sent
    nothing: one of the two conflict errors with status 400, or the
    schema's or the database's error with the status left at 200. It
    never throws 'Failed to create organization request' nor lets the
    mailer's error out. *)
Theorem post_request_response (req_body : RequestBody) (d : database) :
  let run := handler req_body (incoming d) in
  run.2 = inl tt ∧ res run.1 = {| statusCode := 200; sent := Some ∅ |}
  ∨ sent (res run.1) = None ∧
    (statusCode (res run.1) = 400 ∧
     (run.2 = inr (Error account_exists) ∨ run.2 = inr (Error already_pending))
     ∨ statusCode (res run.1) = 200 ∧
       (run.2 = inr ZodError ∨ run.2 = inr DatabaseError)).
Proof.
  cbn zeta. rewrite post_request_outcomes.
  destruct (parse req_body) as [body|]; [|right; split; [done|]; right; eauto].
  destruct (d !! "organization_account") as [accounts|];
    [|right; split; [done|]; right; eauto].
  case_decide; [right; split; [done|]; left; eauto|].
  destruct (d !! "organization_request") as [requests|];
    [|right; split; [done|]; right; eauto].
  case_decide; [right; split; [done|]; left; eauto|].
  destruct (row_accepted _ _ _).
  - by left.
  - right. split; [done|]. right. eauto.
Qed.

(** X21. The handler leaves every table but [organization_request] as it
    was, and that table with its declaration; its rows are the old ones
    followed by at most one new row, and there is a new row exactly when
    the handler returns. *)
Theorem post_request_frame (req_body : RequestBody) (d : database) :
  let run := handler req_body (incoming d) in
  (forall tbl, tbl ≠ "organization_request" -> db run.1 !! tbl = d !! tbl) ∧
  tbl_schema <$> db run.1 !! "organization_request" =
    tbl_schema <$> d !! "organization_request" ∧
  exists added,
    (length added <= 1)%nat ∧
    tbl_rows <$> db run.1 !! "organization_request" =
      (fun t => tbl_rows t ++ added) <$> d !! "organization_request" ∧
    (added ≠ [] <-> run.2 = inl tt).
Proof.
  cbn zeta. rewrite post_request_outcomes.
  assert (forall (o : option table) (e : exception),
            tbl_schema <$> o = tbl_schema <$> o ∧
            exists added : list row,
              (length added <= 1)%nat ∧
              tbl_rows <$> o = (fun t => tbl_rows t ++ added) <$> o ∧
              (added ≠ [] <-> @inr unit exception e = inl tt)) as Hsame.
  { intros o e. split; [done|]. exists []. split_and!; [cbn; lia | | done].
    destruct o; [|done]. cbn. by rewrite app_nil_r. }
  destruct (parse req_body) as [body|]; [|split; [done | apply Hsame]].
  destruct (d !! "organization_account") as [accounts|];
    [|split; [done | apply Hsame]].
  case_decide; [split; [done | apply Hsame]|].
  destruct (d !! "organization_request") as [requests|] eqn:Hreq.
  2:{ cbn [fst snd incoming db]. rewrite Hreq. split; [done | apply Hsame]. }
  case_decide.
  { cbn [fst snd rejected_world db]. rewrite Hreq. split; [done | apply Hsame]. }
  destruct (row_accepted _ _ _); cbn [fst snd accepted_world refused_world db].
  - split_and!.
    + intros tbl Htbl. by rewrite lookup_insert_ne.
    + by rewrite lookup_insert_eq.
    + exists [stored_row toLowerCase requests body].
      rewrite lookup_insert_eq. by split_and!.
  - split_and!.
    + intros tbl Htbl. by rewrite lookup_insert_ne.
    + by rewrite lookup_insert_eq.
    + exists []. rewrite lookup_insert_eq. cbn. rewrite app_nil_r.
      split_and!; [lia | done | done].
Qed.

(** X22. The mailer is called only after a row has been stored, once,
    with that row, and the console gets one line exactly when the mailer
    threw; a handler that throws has neither called the mailer nor
    logged. *)
Theorem post_request_mailer (req_body : RequestBody) (d : database) :
  let run := handler req_body (incoming d) in
  match run.2 with
  | inl _ =>
      exists stored requests',
        db run.1 !! "organization_request" = Some requests' ∧
        last (tbl_rows requests') = Some stored ∧
        mailed run.1 = [stored] ∧
        (length (console run.1) <= 1)%nat ∧
        (console run.1 = [] <-> sendAdminOrganizationRequestEmail stored = None)
  | inr _ => mailed run.1 = [] ∧ console run.1 = []
  end.
Proof.
  cbn zeta. rewrite post_request_outcomes.
  destruct (parse req_body) as [body|]; [|done].
  destruct (d !! "organization_account") as [accounts|]; [|done].
  case_decide; [done|].
  destruct (d !! "organization_request") as [requests|]; [|done].
  case_decide; [done|].
  destruct (row_accepted _ _ _); [|done].
  cbn [fst snd accepted_world db mailed console].
  eexists _, _. rewrite lookup_insert_eq. split; [done|].
  cbn [tbl_rows]. rewrite last_snoc. split; [done|]. split; [done|].
  destruct (sendAdminOrganizationRequestEmail _); cbn; split; (lia || done).
Qed.

(** X23. If no pending request has the email of an approved account
    before the handler runs, none has after it. *)
Theorem post_request_keeps_emails_apart (req_body : RequestBody) (d : database) :
  emails_apart d ->
  emails_apart (db (handler req_body (incoming d)).1).
Proof.
  intros Hapart. rewrite post_request_outcomes.
  destruct (parse req_body) as [body|]; [|done].
  destruct (d !! "organization_account") as [accounts|] eqn:Hacc; [|done].
  case_decide as Hnone; [done|].
  destruct (d !! "organization_request") as [requests|] eqn:Hreq; [|done].
  case_decide; [done|].
  destruct (row_accepted _ _ _); cbn [fst accepted_world refused_world db].
  - intros accounts' requests' a r v Hacc' Hreq' Ha Hr Hav.
    rewrite lookup_insert_ne in Hacc' by done.
    rewrite lookup_insert_eq in Hreq'.
    injection Hreq' as <-. rewrite Hacc in Hacc'. injection Hacc' as <-.
    cbn [tbl_rows] in Hr. apply elem_of_app in Hr as [Hr | Hr].
    + by apply (Hapart accounts requests a r v).
    + apply list_elem_of_singleton in Hr as ->.
      unfold stored_row.
      rewrite (fill_defaults_keeps _ _ _ _ _
                 (request_values_email body (norm (email body)))).
      intros [= <-]. apply Hnone. apply Exists_exists. by exists a.
  - intros accounts' requests' a r v Hacc' Hreq' Ha Hr Hav.
    rewrite lookup_insert_ne in Hacc' by done.
    rewrite lookup_insert_eq in Hreq'.
    injection Hreq' as <-. rewrite Hacc in Hacc'. injection Hacc' as <-.
    by apply (Hapart accounts requests a r v).
Qed.

(** X24. Once a signup has gone through, a later request whose email
    normalizes to the same string, whatever its casing, its surrounding
    whitespace and its other fields, is rejected as already pending. *)
Theorem later_same_email_pending
    (req_body req_body' : RequestBody) (body body' : NewOrganizationRequest)
    (d : database) (w1 : World) :
  handler req_body (incoming d) = (w1, inl tt) ->
  parse req_body = Some body ->
  parse req_body' = Some body' ->
  norm (email body') = norm (email body) ->
  handler req_body' (incoming (db w1)) =
    (rejected_world (db w1), inr (Error already_pending)).
Proof.
  intros Hrun Hparse Hparse' Hsame.
  rewrite post_request_outcomes, Hparse in Hrun.
  destruct (d !! "organization_account") as [accounts|] eqn:Hacc; [|done].
  case_decide as Hnone; [done|].
  destruct (d !! "organization_request") as [requests|] eqn:Hreq; [|done].
  case_decide; [done|].
  destruct (row_accepted _ _ _); [|done].
  injection Hrun as <-.
  rewrite post_request_outcomes, Hparse', Hsame.
  cbn [accepted_world db].
  rewrite lookup_insert_ne, Hacc by done.
  rewrite decide_False by done. rewrite lookup_insert_eq.
  rewrite decide_True; [done|].
  cbn [tbl_rows]. apply Exists_app. right. constructor.
  unfold has_email, stored_row.
  apply fill_defaults_keeps, request_values_email.
Qed.

End Handler.

Lemma post_request_keeps_emails_apart_witness :
  let before := with_account_and_request in
  let run := run_signup mailer_returns second_harvest before in
  length <$> (tbl_rows <$> before !! "organization_account") = Some 1%nat ∧
  length <$> (tbl_rows <$> before !! "organization_request") = Some 1%nat ∧
  run.2 = inl tt ∧
  length <$> (tbl_rows <$> db run.1 !! "organization_request") = Some 2%nat ∧
  emails_apart (db run.1).
Proof.
  cbn zeta. split; [vm_compute; reflexivity|].
  split; [vm_compute; reflexivity|].
  split; [vm_compute; reflexivity|].
  split; [vm_compute; reflexivity|].
  apply (post_request_keeps_emails_apart
           NewOrganizationRequest parse_any toLowerCase_ascii mailer_returns
           accepts_all second_harvest with_account_and_request).
  intros accounts requests a r v Hacc Hreq Ha Hr Hav Hrv.
  vm_compute in Hacc. injection Hacc as <-.
  vm_compute in Hreq. injection Hreq as <-.
  cbn [tbl_rows] in Ha, Hr.
  apply list_elem_of_singleton in Ha. apply list_elem_of_singleton in Hr.
  rewrite Ha in Hav. rewrite Hr in Hrv. clear Ha Hr.
  vm_compute in Hav. injection Hav as <-.
  vm_compute in Hrv. discriminate Hrv.
Defined.

Lemma later_same_email_pending_witness :
  run_signup mailer_returns helping_hands_again after_first =
    (rejected_world after_first,
     inr (Error (js "A request with this email is already pending"))).
Proof.
  apply (later_same_email_pending
           NewOrganizationRequest parse_any toLowerCase_ascii mailer_returns
           accepts_all helping_hands helping_hands_again
           helping_hands helping_hands_again migrated
           (run_signup mailer_returns helping_hands migrated).1).
  - vm_compute. reflexivity.
  - reflexivity.
  - reflexivity.
  - vm_compute. reflexivity.
Defined.

End ServerMoreFacts.

(** ** The migration, further *)

Module MigrationFacts.

Import Database DatabaseFacts.

Lemma up_unfolded (db : database) :
  match up db with
  | Some db' =>
      db !! "organization_account" = None ∧
      db' =
        <["admin_account" := fresh_table admin_account_columns]>
          (<["volunteer_account" := fresh_table volunteer_account_columns]>
             (<["organization_request" := fresh_table organization_request_columns]>
                (<["organization_account" := fresh_table organization_account_columns]>
                   db)))
  | None => True
  end.
Proof.
  unfold up, createTable.
  destruct (db !! "organization_account") as [t1|] eqn:H1; cbn; [done|].
  rewrite lookup_insert_ne by done.
  destruct (db !! "organization_request"); cbn; [done|].
  rewrite !lookup_insert_ne by done.
  destruct (db !! "volunteer_account"); cbn; [done|].
  rewrite !lookup_insert_ne by done.
  by destruct (db !! "admin_account").
Qed.

(** X25. The migration goes through exactly on a database that has none
    of its four tables, and then adds the four, empty and with their
    declarations, to what was there; otherwise one of the four exists
    already. *)
Theorem up_creates_four_tables (db : database) :
  match up db with
  | Some db' =>
      Forall (fun name => db !! name = None) migration_tables ∧
      db' =
        <["admin_account" := fresh_table admin_account_columns]>
          (<["volunteer_account" := fresh_table volunteer_account_columns]>
             (<["organization_request" := fresh_table organization_request_columns]>
                (<["organization_account" := fresh_table organization_account_columns]>
                   db)))
  | None => Exists (fun name => is_Some (db !! name)) migration_tables
  end.
Proof.
  unfold up, createTable, migration_tables.
  destruct (db !! "organization_account") as [t1|] eqn:H1; cbn.
  { left. by rewrite H1. }
  rewrite lookup_insert_ne by done.
  destruct (db !! "organization_request") as [t2|] eqn:H2; cbn.
  { right. left. by rewrite H2. }
  rewrite !lookup_insert_ne by done.
  destruct (db !! "volunteer_account") as [t3|] eqn:H3; cbn.
  { do 2 right. left. by rewrite H3. }
  rewrite !lookup_insert_ne by done.
  destruct (db !! "admin_account") as [t4|] eqn:H4; cbn.
  { do 3 right. left. by rewrite H4. }
  split; [|done]. by repeat constructor.
Qed.

(** X26. [down] undoes nothing: after the migration, running [down]
    leaves the tables in place, and the migration cannot be run again. *)
Theorem down_keeps_the_tables (db db' db'' : database) :
  up db = Some db' ->
  down db' = Some db'' ->
  db'' = db' ∧ up db'' = None ∧
  Forall (fun name => is_Some (db'' !! name)) migration_tables.
Proof.
  intros Hup [= <-].
  pose proof (up_unfolded db) as Htables. rewrite Hup in Htables.
  destruct Htables as [_ ->].
  split; [done|]. split.
  - unfold up, createTable.
    rewrite !lookup_insert_ne by done. by rewrite lookup_insert_eq.
  - unfold migration_tables. repeat constructor.
    + rewrite !lookup_insert_ne by done. by rewrite lookup_insert_eq.
    + rewrite !lookup_insert_ne by done. by rewrite lookup_insert_eq.
    + rewrite !lookup_insert_ne by done. by rewrite lookup_insert_eq.
    + by rewrite lookup_insert_eq.
Qed.

Lemma down_keeps_the_tables_witness :
  migrated = migrated ∧ up migrated = None ∧
  Forall (fun name => is_Some (migrated !! name)) migration_tables.
Proof.
  apply (down_keeps_the_tables ∅ migrated migrated).
  - reflexivity.
  - reflexivity.
Defined.

Section Engine.

Variable type_accepts : col_type -> value -> bool.

(** X27. In every state the migrated database reaches by inserts and
    deletes, every table is one of the migration's with its declaration,
    and every column keeps what it declares: a primary key or not-null
    column is present in every row, and a primary key or unique column
    holds no value twice. This covers the serial ids, the phone numbers
    and the passwords, in all four tables. *)
Theorem declared_constraints_hold
    (db : database) (tbl : string) (t : table) (c : column) :
  db_reachable type_accepts db ->
  db !! tbl = Some t ->
  c ∈ tbl_schema t ->
  tbl ∈ migration_tables ∧
  tbl_schema <$> migrated !! tbl = Some (tbl_schema t) ∧
  (col_notNull c = true ∨ col_primaryKey c = true ->
   Forall (fun r : row => is_Some (r !! col_name c)) (tbl_rows t)) ∧
  (col_unique c = true ∨ col_primaryKey c = true ->
   forall i j ri rj v,
     tbl_rows t !! i = Some ri -> tbl_rows t !! j = Some rj ->
     ri !! col_name c = Some v -> rj !! col_name c = Some v ->
     i = j).
Proof.
  intros Hreach Ht Hc.
  destruct (reachable_sound type_accepts db Hreach) as [Hschema Hsound].
  specialize (Hschema tbl). rewrite Ht in Hschema. cbn in Hschema.
  specialize (Hsound tbl t Ht). unfold table_sound in Hsound.
  rewrite Forall_forall in Hsound. destruct (Hsound c Hc) as [Hnn Huq].
  split_and!.
  - rewrite migrated_tables in Hschema. unfold migration_tables.
    destruct (decide (tbl = "admin_account")) as [-> | ?];
      [by repeat constructor|].
    rewrite lookup_insert_ne in Hschema by done.
    destruct (decide (tbl = "volunteer_account")) as [-> | ?];
      [by repeat constructor|].
    rewrite lookup_insert_ne in Hschema by done.
    destruct (decide (tbl = "organization_request")) as [-> | ?];
      [by repeat constructor|].
    rewrite lookup_insert_ne in Hschema by done.
    destruct (decide (tbl = "organization_account")) as [-> | ?];
      [by repeat constructor|].
    rewrite lookup_insert_ne in Hschema by done.
    by rewrite lookup_empty in Hschema.
  - done.
  - intros Hdecl. apply Hnn. unfold holds_notNull.
    destruct Hdecl as [-> | ->]; [done | by rewrite orb_true_r].
  - intros Hdecl i j ri rj v Hi Hj Hvi Hvj.
    apply (distinct_on_lookup (col_name c) (tbl_rows t) i j ri rj v); try done.
    apply Huq. unfold holds_unique.
    destruct Hdecl as [-> | ->]; [done | by rewrite orb_true_r].
Qed.

End Engine.

Lemma declared_constraints_hold_witness :
  "organization_request" ∈ migration_tables ∧
  tbl_schema <$> migrated !! "organization_request" =
    Some (tbl_schema two_requests_table) ∧
  (col_notNull id_column = true ∨ col_primaryKey id_column = true ->
   Forall (fun r : row => is_Some (r !! col_name id_column))
          (tbl_rows two_requests_table)) ∧
  (col_unique id_column = true ∨ col_primaryKey id_column = true ->
   forall i j ri rj v,
     tbl_rows two_requests_table !! i = Some ri ->
     tbl_rows two_requests_table !! j = Some rj ->
     ri !! col_name id_column = Some v -> rj !! col_name id_column = Some v ->
     i = j).
Proof.
  apply (declared_constraints_hold accepts_all two_requests).
  - eexists. reflexivity.
  - vm_compute. reflexivity.
  - vm_compute. left.
Defined.

End MigrationFacts.
